(** * VocalNetSDR: the SDR blend search of [sdr_model_comparison.py]

    A shallow embedding of the metric ([sdr], [get_sdr]), the crossover blend
    of [process_track], the weight grid and the aggregation loop of [main].

    Numbers.  The program computes in numpy [float64].  The weight grid and
    the aggregation loop are closed arithmetic and are embedded over Rocq's
    primitive binary64 floats, so they evaluate bit for bit.  The metric and
    the blend call kernels that the repository does not define ([np.log10],
    [scipy.signal.butter], [tf2sos], [sosfiltfilt]); these are section
    parameters, and the arithmetic around them is written against the class
    [Arith], whose float64 instance is the program's arithmetic.  The sums
    of the metric follow the order in which [np.sum] adds, so that the
    float64 instance rounds as numpy does.  The instance over the real
    numbers serves for examples in exact arithmetic.

    Arrays.  The signals are arrays of at least one channel and one sample:
    a nested list keeps no inner dimensions of an array with an empty axis,
    and a mono file, which [sf.read] returns as a 1-D array, is outside the
    embedding. *)

From Stdlib Require Import ZArith List Floats Reals Lra Lia.
From stdpp Require Import base list sorting pretty strings.
Import ListNotations.

Set Default Proof Using "Type".
Set Warnings "-inexact-float".

(** ** Exceptions *)

Inductive exn : Type :=
  | ValueError (msg : string)
  | IndexError (msg : string)
  | ZeroDivisionError.

Inductive result (A : Type) : Type :=
  | Ok (a : A)
  | Raise (e : exn).
Arguments Ok {A} a.
Arguments Raise {A} e.

#[global] Instance result_ret : MRet result := fun A a => Ok a.
#[global] Instance result_bind : MBind result := fun A B f m =>
  match m with
  | Ok a => f a
  | Raise e => Raise e
  end.

(** [for x in l: acc.append(f x)], stopping at the first exception. *)
Fixpoint for_each {A B : Type} (f : A -> result B) (l : list A) : result (list B) :=
  match l with
  | [] => Ok []
  | x :: l' =>
      match f x with
      | Ok y =>
          match for_each f l' with
          | Ok ys => Ok (y :: ys)
          | Raise e => Raise e
          end
      | Raise e => Raise e
      end
  end.

(** ** Scalars *)

Class Arith (F : Type) : Type := {
  of_Z : Z -> F;
  f_add : F -> F -> F;
  f_sub : F -> F -> F;
  f_mul : F -> F -> F;
  f_div : F -> F -> F
}.

Declare Scope arith_scope.
Delimit Scope arith_scope with A.
Notation "x + y" := (f_add x y) : arith_scope.
Notation "x - y" := (f_sub x y) : arith_scope.
Notation "x * y" := (f_mul x y) : arith_scope.
Notation "x / y" := (f_div x y) : arith_scope.

(** A decimal literal [n / d] with [n] and [d] integers: [1e-7] is
    [lit 1 10000000].  At float64 the quotient of two exactly represented
    integers is the nearest double to the decimal, as the literal is. *)
Definition lit {F : Type} `{Arith F} (n d : Z) : F := (of_Z n / of_Z d)%A.

(** float64 *)
Definition float_of_Z (z : Z) : float :=
  match z with
  | Z0 => PrimFloat.zero
  | Zpos _ => PrimFloat.of_uint63 (Uint63.of_Z z)
  | Zneg p => PrimFloat.opp (PrimFloat.of_uint63 (Uint63.of_Z (Zpos p)))
  end.

#[global] Instance float_arith : Arith float := {
  of_Z := float_of_Z;
  f_add := PrimFloat.add;
  f_sub := PrimFloat.sub;
  f_mul := PrimFloat.mul;
  f_div := PrimFloat.div
}.

(** Exact arithmetic *)
#[global] Instance R_arith : Arith R := {
  of_Z := IZR;
  f_add := Rplus;
  f_sub := Rminus;
  f_mul := Rmult;
  f_div := Rdiv
}.

Definition Rlog10 (x : R) : R := (ln x / ln 10)%R.

(** ε = 1e-7, the [delta] of [sdr], as a real number *)
Definition epsilon : R := lit 1 10000000.

(** The [delta] of [sdr] at float64: the double nearest to 1e-7. *)
Definition delta : float := lit 1 10000000.

(** A double that is a number and not below zero: a zero, a positive
    finite double or [+inf]. *)
Definition sf_not_below_zero (x : spec_float) : bool :=
  match x with
  | S754_zero _ => true
  | S754_infinity s | S754_finite s _ _ => negb s
  | S754_nan => false
  end.

Definition not_below_zero (x : float) : bool := sf_not_below_zero (Prim2SF x).

(** The outcome of a rounding that keeps the sign [s]: anything but NaN. *)
Definition sf_signed (s : bool) (x : spec_float) : Prop :=
  match x with
  | S754_zero s' | S754_infinity s' | S754_finite s' _ _ => s' = s
  | S754_nan => False
  end.

(** ** Arrays

    A numpy array is a nested list, outermost axis first; numpy arrays are
    rectangular, which the shape predicates record. *)

Abbreviation array1 F := (list F).
Abbreviation array2 F := (list (list F)).
Abbreviation array3 F := (list (list (list F))).

Definition has_shape2 {F : Type} (a : array2 F) (C T : nat) : Prop :=
  length a = C /\ Forall (fun row => length row = T) a.

Definition has_shape3 {F : Type} (a : array3 F) (B C T : nat) : Prop :=
  length a = B /\ Forall (fun m => has_shape2 m C T) a.

(** [a.shape[1]] of a 2-D array with at least one row. *)
Definition shape1 {F : Type} (a : array2 F) : nat := length (hd [] a).

(** [a.T] of a 2-D array with at least one row: a [(0, C)] array has no
    rows to take the [C] columns from. *)
Fixpoint transpose {F : Type} (a : array2 F) : array2 F :=
  match a with
  | [] => []
  | [row] => map (fun x => [x]) row
  | row :: rest => zip_with cons row (transpose rest)
  end.

Definition broadcast_error : exn :=
  ValueError "operands could not be broadcast together".

(** One axis of numpy broadcasting: equal lengths pair up, an axis of
    length 1 is stretched, anything else raises.  The inner axes are
    compared element by element, so they are compared only where the outer
    axis is not empty. *)
Definition broadcast {A B C : Type} (f : A -> B -> result C)
    (xs : list A) (ys : list B) : result (list C) :=
  if Nat.eqb (length xs) (length ys) then
    for_each (fun p => f (fst p) (snd p)) (zip xs ys)
  else
    match xs, ys with
    | [x], _ => for_each (f x) ys
    | _, [y] => for_each (fun x => f x y) xs
    | _, _ => Raise broadcast_error
    end.

Section Elementwise.
Context {F : Type} (op : F -> F -> F).

Definition ew0 (x y : F) : result F := Ok (op x y).
Definition ew1 : array1 F -> array1 F -> result (array1 F) := broadcast ew0.
Definition ew2 : array2 F -> array2 F -> result (array2 F) := broadcast ew1.
Definition ew3 : array3 F -> array3 F -> result (array3 F) := broadcast ew2.
End Elementwise.

(** ** [np.sum] on a contiguous run

    numpy's add reduction does not add a run of doubles from left to right.
    Its inner loop ([pairwise_sum] of numpy's [loops_utils.h]) adds fewer
    than 8 terms from the left; up to 128 terms it keeps eight running
    partial sums [r[0..7]], one per position modulo 8, combines them as
    [((r0 + r1) + (r2 + r3)) + ((r4 + r5) + (r6 + r7))] and then adds the
    terms after the last full group of eight from the left; a longer run is
    split in two, the first part being half the length rounded down to a
    multiple of 8, and the sums of the two parts are added.  The reduction
    hands this loop at most one buffer of the run at a time (8192 elements
    unless [np.setbufsize] changed it) and adds each result to its output,
    which starts at 0: numpy's summation is pairwise within a buffer and
    from left to right across buffers.  (numpy versions differ in the sign
    of the zero they start from; the sums differ only when every term is
    [-0.0], which no square is.) *)

Section PairwiseSum.
Context {F : Type} `{Arith F}.
Local Open Scope arith_scope.

(** [r[j] += a[i + j]] for [k] further groups of eight. *)
Fixpoint unrolled8 (k : nat) (r a : list F) : list F :=
  match k with
  | O => r
  | S k' => unrolled8 k' (zip_with f_add r (take 8 a)) (drop 8 a)
  end.

(** A run of 8 to 128 terms. *)
Definition pairwise_block (a : list F) : F :=
  let n := length a in
  let r := unrolled8 (n / 8 - 1) (take 8 a) (drop 8 a) in
  let r_ i := nth i r (of_Z 0) in
  let res := ((r_ 0%nat + r_ 1%nat) + (r_ 2%nat + r_ 3%nat))
             + ((r_ 4%nat + r_ 5%nat) + (r_ 6%nat + r_ 7%nat)) in
  fold_left f_add (drop (n - n mod 8) a) res.

(** The recursion halves the run, so [depth] bounds it when it is at
    least the length of the run ([pairwise_sum_unfold] below). *)
Fixpoint pairwise_sum_rec (depth : nat) (a : list F) : F :=
  let n := length a in
  if (n <? 8)%nat then fold_left f_add a (of_Z 0)
  else if (n <=? 128)%nat then pairwise_block a
  else
    match depth with
    | O => pairwise_block a
    | S depth' =>
        let n2 := (n / 2 - (n / 2) mod 8)%nat in
        pairwise_sum_rec depth' (take n2 a) + pairwise_sum_rec depth' (drop n2 a)
    end.

Definition pairwise_sum (a : list F) : F := pairwise_sum_rec (length a) a.

(** The reduction over a contiguous run with a buffer of [size] elements:
    [out = 0], then [out += pairwise_sum(chunk)] for the consecutive chunks
    of at most [size] elements. *)
Definition np_sum_buffered (size : nat) (a : list F) : F :=
  fold_left (fun out i => out + pairwise_sum (take size (drop (i * size) a)))
            (seq 0 ((length a + size - 1) / size)) (of_Z 0).

(** numpy's default buffer size, in elements. *)
Definition bufsize : nat := 2 ^ 13.

(** [np.sum] of a contiguous run. *)
Definition np_sum (a : list F) : F := np_sum_buffered bufsize a.

(** The sum of the terms as mathematics writes it, [a0 + (a1 + ...)]:
    what every order of addition gives in exact arithmetic. *)
Definition total (a : list F) : F := fold_right f_add (of_Z 0) a.
End PairwiseSum.

(** ** Metric engine *)

Section Metric.
Context {F : Type} `{Arith F}.
(** [np.log10] *)
Variable log10 : F -> F.

Local Open Scope arith_scope.

(** [np.square] on a 3-D array *)
Definition square3 (a : array3 F) : array3 F :=
  map (map (map (fun x => x * x))) a.

(** [np.sum(a, axis=(1, 2))] of a C-contiguous array, as [np.square]
    returns it here: the channel and sample axes of a batch element are one
    contiguous run in row-major order, and each batch element is reduced
    on its own. *)
Definition sum_axes12 (a : array3 F) : array1 F :=
  map (fun m => np_sum (concat m)) a.

Definition sdr (references estimates : array3 F) : result (array1 F) :=
  let delta := lit 1 10000000 in
  let num := sum_axes12 (square3 references) in
  diff ← ew3 f_sub references estimates;
  let den := sum_axes12 (square3 diff) in
  let num := map (fun x => x + delta) num in
  let den := map (fun x => x + delta) den in
  ratio ← ew1 f_div num den;
  Ok (map (fun x => of_Z 10 * log10 x) ratio).

Definition get_sdr (original_signal model_signal : array2 F) : result (array1 F) :=
  let min_length := Nat.min (shape1 original_signal) (shape1 model_signal) in
  let original_signal_trimmed := map (take min_length) original_signal in
  let model_signal_trimmed := map (take min_length) model_signal in
  let sdr_value := sdr [original_signal_trimmed] [model_signal_trimmed] in
  sdr_value.

(** *** The metric as the specification words it *)

Definition at2 (a : array2 F) (c t : nat) : F := nth t (nth c a []) (of_Z 0).
Definition at3 (a : array3 F) (b c t : nat) : F := at2 (nth b a []) c t.

(** [Σ f c t] over channels [c < C] and samples [t < T]: the terms in
    row-major order of [(c, t)], added as [np.sum] adds. *)
Definition sum_ct (C T : nat) (f : nat -> nat -> F) : F :=
  np_sum (map (fun ct => f (fst ct) (snd ct)) (list_prod (seq 0 C) (seq 0 T))).

Definition sdr_formula (S_ref S_err : F) : F :=
  of_Z 10 * log10 ((S_ref + lit 1 10000000) / (S_err + lit 1 10000000)).

(** [Σ x²] over all entries of one batch element. *)
Definition energy (m : array2 F) : F :=
  np_sum (concat (map (map (fun x => x * x)) m)).

Definition sdr_spec (C T : nat) (references estimates : array3 F) (b : nat) : F :=
  sdr_formula
    (sum_ct C T (fun c t => at3 references b c t * at3 references b c t))
    (sum_ct C T (fun c t =>
       (at3 references b c t - at3 estimates b c t)
       * (at3 references b c t - at3 estimates b c t))).
End Metric.

(** ** Crossover filter *)

Inductive btype : Type := lowpass | highpass.

(** The default of [lr_filter]'s [order] argument. *)
Definition default_order : Z := 6.

Section TrackEvaluator.
Context {F : Type} `{Arith F}.
Variable log10 : F -> F.

(** [scipy.signal]: transfer-function and second-order-section
    coefficients, the Butterworth design (which raises when the normalised
    cutoff is not inside (0, 1)), the conversion, and the forward-backward
    filter along the last axis (which raises on a signal shorter than its
    padding). *)
Context {TF SOS : Type}.
Variable butter : Z -> F -> btype -> result TF.
Variable tf2sos : TF -> result SOS.
Variable sosfiltfilt : SOS -> array2 F -> result (array2 F).

Local Open Scope arith_scope.

(** [nyquist] is a Python float, and it is [0.0] exactly when [sr] is 0;
    Python's division by it then raises. *)
Definition lr_filter (audio : array2 F) (cutoff : Z) (filter_type : btype)
    (order : Z) (sr : Z) : result (array2 F) :=
  let nyquist := lit 1 2 * of_Z sr in
  if decide (sr = 0%Z) then Raise ZeroDivisionError else
  let normal_cutoff := of_Z cutoff / nyquist in
  ba ← butter (order / 2)%Z normal_cutoff filter_type;
  sos ← tf2sos ba;
  let filtered_audio := sosfiltfilt sos audio in
  filtered_audio.

(** What [sf.read] returns for a file of two or more channels: the
    samples, shaped (frames, channels), and the sample rate.  (A mono file
    comes as a 1-D array, and [get_sdr] raises on its [shape[1]].) *)
Definition audio_file : Type := (array2 F * Z)%type.

(** [sorted(set(srs))] *)
Definition sorted_set (srs : list Z) : list Z := merge_sort Z.le (remove_dups srs).

Definition sample_rate_message (srs : list Z) : string :=
  String.append "Sample rates are not the same across all files.
Found sample rates: "
    (String.append (String.concat ", " (map pretty (sorted_set srs)))
       ".
Please ensure all files have the same sample rate, such as 44100 or 48000.").

(** [l[i]] on a Python list *)
Definition index {A : Type} (l : list A) (i : nat) : result A :=
  match l !! i with
  | Some x => Ok x
  | None => Raise (IndexError "list index out of range")
  end.

(** [weights.sum()] of [weights = np.array([first_val, second_val])] *)
Definition weights_sum (first_val second_val : F) : F := first_val + second_val.

(** The body of the loop over [weight_combinations]. *)
Definition evaluate_pair (original_vocals : array2 F) (sr1 : Z)
    (model_signals : list (array2 F)) (w : F * F) : result (F * F * F) :=
  let '(first_val, second_val) := w in
  m0 ← index model_signals 0;
  m1 ← index model_signals 1;
  blend ← ew2 f_add (map (map (fun x => first_val * x)) m0)
                    (map (map (fun x => second_val * x)) m1);
  low ← lr_filter (map (map (fun x => x / weights_sum first_val second_val)) blend)
                  10000 lowpass default_order sr1;
  let vocals_low := map (map (fun x => x * lit 101055 100000)) low in
  vocals_high ← lr_filter m1 10000 highpass default_order sr1;
  summ_vocals ← ew2 f_add vocals_low vocals_high;
  sdr_vocals ← get_sdr log10 (transpose original_vocals) summ_vocals;
  s ← index sdr_vocals 0;
  Ok (first_val, second_val, s).

Definition process_track (vocals other : audio_file) (model_files : list audio_file)
    (weight_combinations : list (F * F)) : result (list (F * F * F)) :=
  let '(original_vocals, sr1) := vocals in
  let '(original_other, sr2) := other in
  original_mix ← ew2 f_add (transpose original_vocals) (transpose original_other);
  let model_signals := map (fun mf => transpose (fst mf)) model_files in
  let srs := [sr1; sr2] ++ map snd model_files in
  if decide (1 < length (remove_dups srs))%nat then
    Raise (ValueError (sample_rate_message srs))
  else
    for_each (evaluate_pair original_vocals sr1 model_signals) weight_combinations.

(** *** The candidate signal as the specification words it *)

Definition lowpass_10k (sr : Z) (x : array2 F) : result (array2 F) :=
  if decide (sr = 0%Z) then Raise ZeroDivisionError else
  ba ← butter 3 (of_Z 10000 / (lit 1 2 * of_Z sr)) lowpass;
  sos ← tf2sos ba;
  sosfiltfilt sos x.

Definition highpass_10k (sr : Z) (x : array2 F) : result (array2 F) :=
  if decide (sr = 0%Z) then Raise ZeroDivisionError else
  ba ← butter 3 (of_Z 10000 / (lit 1 2 * of_Z sr)) highpass;
  sos ← tf2sos ba;
  sosfiltfilt sos x.

Definition candidate_spec (sr : Z) (w1 w2 : F) (A B : array2 F) : result (array2 F) :=
  wA_plus_wB ← ew2 f_add (map (map (f_mul w1)) A) (map (map (f_mul w2)) B);
  let average := map (map (fun x => x / (w1 + w2))) wA_plus_wB in
  low ← lowpass_10k sr average;
  let gained := map (map (fun x => x * lit 101055 100000)) low in
  high ← highpass_10k sr B;
  ew2 f_add gained high.
End TrackEvaluator.

(** ** Weight grid (float64) *)

(** The least integer not below a finite double; 0 on infinities and NaN,
    where [np.arange] raises. *)
Definition float_ceil (x : float) : Z :=
  match Prim2SF x with
  | S754_finite s m e =>
      let n := if (0 <=? e)%Z then Z.shiftl (Zpos m) e
               else if s then Z.shiftr (Zpos m) (- e)
               else (- Z.shiftr (- Zpos m) (- e))%Z in
      if s then (- n)%Z else n
  | _ => 0%Z
  end.

(** [np.arange(start, stop, step)] on doubles: [ceil((stop - start) / step)]
    entries; the first two are [start] and [start + step], the others
    [start + i * delta] with [delta] the difference of the first two. *)
Definition arange (start stop step : float) : list float :=
  let len := Z.to_nat (float_ceil ((stop - start) / step)) in
  let next := (start + step)%float in
  let delta := (next - start)%float in
  map (fun i => match i with
                | O => start
                | S O => next
                | _ => (start + float_of_Z (Z.of_nat i) * delta)%float
                end) (seq 0 len).

Definition weight_step : float := 1.0%float.

Definition weight_combinations : list (float * float) :=
  map (fun first_val => (first_val, (10 - first_val)%float))
      (arange 0 (10 + weight_step) weight_step).

(** ** Grid search aggregator *)

(** Equality of binary64 values, for dictionary keys.  On numbers other
    than NaN and the two zeros it is Python's [==]. *)
#[global] Instance float_eq_dec : EqDecision float.
Proof.
  intros x y. destruct (PrimFloat.Leibniz.eqb x y) eqn:E.
  - left. apply FloatAxioms.Leibniz.eqb_spec, E.
  - right. intros Exy. apply FloatAxioms.Leibniz.eqb_spec in Exy. congruence.
Defined.

Section Aggregator.
(** Weights are dictionary keys: any type with decidable equality. *)
Context {W : Type} `{EqDecision W}.

(** An entry of [all_sdr_values]: [(first_val, second_val, sdr_value)]. *)
Definition observation : Type := (W * W * float)%type.

(** [avg_sdr_per_weight]: a Python dict keeps its keys in insertion
    order, so it is an association list in that order. *)
Definition dict : Type := list (W * W * list float).

(** [if k not in d: d[k] = []] followed by [d[k].append(v)]. *)
Fixpoint dict_append (d : dict) (k : W * W) (v : float) : dict :=
  match d with
  | [] => [(k, [v])]
  | (k', vs) :: d' =>
      if decide (k = k') then (k', vs ++ [v]) :: d'
      else (k', vs) :: dict_append d' k v
  end.

Definition accumulate (all_sdr_values : list observation) : dict :=
  fold_left (fun d o => dict_append d (fst o) (snd o)) all_sdr_values [].

(** [sum(sdr_values) / len(sdr_values)]: Python's [sum] adds from the
    left, starting at 0. *)
Definition average (sdr_values : list float) : float :=
  (fold_left PrimFloat.add sdr_values 0 / float_of_Z (Z.of_nat (length sdr_values)))%float.

(** One iteration of the loop over [avg_sdr_per_weight.items()]. *)
Definition select_step (best : float * (W * W)) (item : W * W * list float)
    : float * (W * W) :=
  let '(best_sdr, best_weights) := best in
  let '(weights, sdr_values) := item in
  let avg_sdr := average sdr_values in
  if (best_sdr <? avg_sdr)%float then (avg_sdr, weights) else (best_sdr, best_weights).

Definition select_best (d : dict) (best : float * (W * W)) : float * (W * W) :=
  fold_left select_step d best.

(** Lines 148-164 of [main]; [zero] is the 0 of the initial
    [best_weights = (0, 0)]. *)
Definition aggregate (zero : W) (all_sdr_values : list observation) : float * (W * W) :=
  let best_sdr := neg_infinity in
  let best_weights := (zero, zero) in
  let avg_sdr_per_weight := accumulate all_sdr_values in
  select_best avg_sdr_per_weight (best_sdr, best_weights).

(** [all_sdr_values.extend(future.result())] over the futures in the
    order they were submitted; a track that raised makes [result()]
    raise. *)
Fixpoint gather (futures : list (result (list observation))) : result (list observation) :=
  match futures with
  | [] => Ok []
  | fut :: rest =>
      match fut with
      | Ok track_values =>
          match gather rest with
          | Ok more => Ok (track_values ++ more)
          | Raise e => Raise e
          end
      | Raise e => Raise e
      end
  end.

Definition main_search (zero : W) (futures : list (result (list observation)))
    : result (float * (W * W)) :=
  match gather futures with
  | Ok all_sdr_values => Ok (aggregate zero all_sdr_values)
  | Raise e => Raise e
  end.

(** The [avg_sdr] of every key, in iteration order. *)
Definition averages (d : dict) : list (W * W * float) :=
  map (fun item => (fst item, average (snd item))) d.

(** The values recorded for a key, in the order they were collected. *)
Definition values_of (k : W * W) (all_sdr_values : list observation) : list float :=
  map snd (filter (fun o => fst o = k) all_sdr_values).

(** [d.get(k)] *)
Fixpoint dict_get (d : dict) (k : W * W) : option (list float) :=
  match d with
  | [] => None
  | (k', vs) :: d' => if decide (k = k') then Some vs else dict_get d' k
  end.
End Aggregator.

(** The search of [main] at float64 weights: [best_weights] starts at
    [(0, 0)]. *)
Definition main_search_float (futures : list (result (list (@observation float))))
    : result (float * (float * float)) :=
  main_search 0%float futures.

(** Test data: a track whose two original stems differ in sample rate,
    and so in length: 2 and 3 stereo frames; both model outputs match the
    vocals. *)
Definition stereo_frames (n : nat) : array2 float := replicate n [0; 0]%float.
Definition mismatched_vocals : array2 float * Z := (stereo_frames 2, 44100%Z).
Definition mismatched_other : array2 float * Z := (stereo_frames 3, 48000%Z).
Definition mismatched_models : list (array2 float * Z) :=
  [(stereo_frames 2, 44100%Z); (stereo_frames 2, 44100%Z)].

(** The elements of a list, each once, in the order of first appearance:
    the order in which a Python dict lists keys inserted in that sequence. *)
Fixpoint first_seen {A : Type} `{EqDecision A} (l : list A) : list A :=
  match l with
  | [] => []
  | x :: l' => x :: filter (fun y => y <> x) (first_seen l')
  end.

(** Test data: one observation whose value is NaN. *)
Definition nan_observation : list (@observation float) := [(0, 10, nan)]%float.

(** Test data: one observation whose value is [-inf], as [sdr] returns it
    when the error energy overflows. *)
Definition minus_infinity_observation : list (@observation float) :=
  [(0, 10, neg_infinity)]%float.

(** The mean of the recorded values read as real numbers: what
    [sum / len] is when no addition rounds. *)
Definition exact_average (val : float -> R) (sdr_values : list float) : R :=
  (fold_left Rplus (map val sdr_values) 0 / INR (length sdr_values))%R.

(** Test data: two tracks over four weight pairs.  Track A is best at
    (3, 7), track B at (5, 5); the means are 6.5, 8, 7 and 8. *)
Definition two_track_observations : list (@observation float) :=
  [ (3, 7, 9); (4, 6, 8); (5, 5, 5); (6, 4, 8.5);
    (3, 7, 4); (4, 6, 8); (5, 5, 9); (6, 4, 7.5) ]%float.

(** Test data: three values for one pair, collected in two orders. *)
Definition three_values : list (@observation float) :=
  [ (5, 5, 0.1); (5, 5, 0.2); (5, 5, 0.3) ]%float.
Definition three_values_reversed : list (@observation float) :=
  [ (5, 5, 0.3); (5, 5, 0.2); (5, 5, 0.1) ]%float.

(** ** The order of binary64 values

    [SFcompare] orders two finite doubles of one sign by exponent, then by
    mantissa; [lexc] is that comparison and [comp_chain] composes two
    outcomes where the composition is determined. *)

Definition lexc (e1 : Z) (m1 : positive) (e2 : Z) (m2 : positive) : comparison :=
  match (e1 ?= e2)%Z with
  | Eq => Pos.compare m1 m2
  | Lt => Lt
  | Gt => Gt
  end.

Definition comp_chain (c1 c2 : comparison) : option comparison :=
  match c1, c2 with
  | Eq, c | c, Eq => Some c
  | Lt, Lt => Some Lt
  | Gt, Gt => Some Gt
  | _, _ => None
  end.

(** * Properties *)

(** ** Loops and broadcasting *)

Section LoopFacts.
Context {A B : Type}.
Implicit Types (f : A -> result B) (l : list A).

Lemma for_each_pure (g : A -> B) f l :
  Forall (fun x => f x = Ok (g x)) l -> for_each f l = Ok (map g l).
Proof.
  induction 1 as [|x l Hx _ IH]; simpl; [reflexivity|].
  now rewrite Hx, IH.
Qed.

Lemma for_each_Forall2 f l ys :
  for_each f l = Ok ys -> Forall2 (fun x y => f x = Ok y) l ys.
Proof.
  revert ys. induction l as [|x l IH]; simpl; intros ys E.
  - injection E as <-. constructor.
  - destruct (f x) as [y|] eqn:Ex; [|discriminate].
    destruct (for_each f l) as [ys'|]; [|discriminate].
    injection E as <-. constructor; auto.
Qed.

End LoopFacts.

Lemma broadcast_pure {A B C : Type} (g : A -> B -> C) (f : A -> B -> result C) xs ys :
  Forall2 (fun x y => f x y = Ok (g x y)) xs ys ->
  broadcast f xs ys = Ok (zip_with g xs ys).
Proof.
  intros HF. unfold broadcast.
  rewrite (Forall2_length _ _ _ HF), Nat.eqb_refl.
  induction HF as [|x y xs ys Hxy _ IH]; simpl; [reflexivity|].
  now rewrite Hxy, IH.
Qed.

Lemma Forall2_of_Forall {A B : Type} (P : A -> Prop) (Q : B -> Prop) xs ys :
  length xs = length ys -> Forall P xs -> Forall Q ys ->
  Forall2 (fun x y => P x /\ Q y) xs ys.
Proof.
  intros Hlen HP. revert ys Hlen.
  induction HP as [|x xs Hx _ IH]; intros [|y ys] Hlen HQ; try discriminate.
  - constructor.
  - inversion HQ; subst. constructor; [tauto|]. apply IH; [simpl in Hlen; lia|assumption].
Qed.

Section ElementwiseFacts.
Context {F : Type} (op : F -> F -> F).

Lemma ew1_same (xs ys : array1 F) :
  length xs = length ys -> ew1 op xs ys = Ok (zip_with op xs ys).
Proof.
  intros Hlen. apply broadcast_pure.
  revert ys Hlen. induction xs as [|x xs IH]; intros [|y ys] Hlen; try discriminate;
    constructor; [reflexivity|]. apply IH. simpl in Hlen; lia.
Qed.

Lemma ew2_same (a b : array2 F) C T :
  has_shape2 a C T -> has_shape2 b C T ->
  ew2 op a b = Ok (zip_with (zip_with op) a b).
Proof.
  intros [Ha Hra] [Hb Hrb]. apply broadcast_pure.
  pose proof (Forall2_of_Forall _ _ a b ltac:(congruence) Hra Hrb) as HF.
  eapply Forall2_impl; [exact HF|].
  intros r s [Hr Hs]. apply ew1_same. congruence.
Qed.

Lemma ew3_same (a b : array3 F) B C T :
  has_shape3 a B C T -> has_shape3 b B C T ->
  ew3 op a b = Ok (zip_with (zip_with (zip_with op)) a b).
Proof.
  intros [Ha Hma] [Hb Hmb]. apply broadcast_pure.
  pose proof (Forall2_of_Forall _ _ a b ltac:(congruence) Hma Hmb) as HF.
  eapply Forall2_impl; [exact HF|].
  intros m n [Hm Hn]. eapply ew2_same; eassumption.
Qed.

Lemma zip_with_shape2 (a b : array2 F) C T :
  has_shape2 a C T -> has_shape2 b C T ->
  has_shape2 (zip_with (zip_with op) a b) C T.
Proof.
  intros [Ha Hra] [Hb Hrb]. split.
  - rewrite length_zip_with. lia.
  - apply Forall_forall. intros r Hr.
    apply elem_of_zip_with in Hr as (x & y & -> & Hx & Hy).
    rewrite length_zip_with.
    rewrite Forall_forall in Hra, Hrb.
    rewrite (Hra _ Hx), (Hrb _ Hy). lia.
Qed.
End ElementwiseFacts.

(** ** The order of [np.sum] *)

Section PairwiseSumFacts.
Context {F : Type} `{Arith F}.
Local Open Scope arith_scope.

Lemma halving_bounds (n : nat) :
  (128 < n)%nat ->
  (0 < n / 2 - (n / 2) mod 8 < n)%nat.
Proof.
  intros Hn.
  pose proof (Nat.div_mod_eq n 2) as E2.
  pose proof (Nat.mod_upper_bound n 2 ltac:(lia)) as B2.
  pose proof (Nat.mod_upper_bound (n / 2) 8 ltac:(lia)) as B8.
  lia.
Qed.

(** Any depth that is at least the length of the run gives the same sum:
    the bound of the recursion is never met. *)
Lemma pairwise_sum_rec_depth (d d' : nat) (a : list F) :
  (length a <= d)%nat -> (length a <= d')%nat ->
  pairwise_sum_rec d a = pairwise_sum_rec d' a.
Proof.
  revert d' a. induction d as [|d IH]; intros d' a Hd Hd'.
  - destruct a; [|simpl in Hd; lia]. destruct d'; reflexivity.
  - destruct d' as [|d'].
    + destruct a; [|simpl in Hd'; lia]. reflexivity.
    + cbn [pairwise_sum_rec].
      destruct (length a <? 8)%nat; [reflexivity|].
      destruct (length a <=? 128)%nat eqn:E128; [reflexivity|].
      apply Nat.leb_gt in E128. pose proof (halving_bounds _ E128) as Hh.
      f_equal; apply IH; rewrite ?length_take, ?length_drop; lia.
Qed.

(** The recursion of numpy's [pairwise_sum]. *)
Lemma pairwise_sum_unfold (a : list F) :
  pairwise_sum a
  = let n := length a in
    if (n <? 8)%nat then fold_left f_add a (of_Z 0)
    else if (n <=? 128)%nat then pairwise_block a
    else
      let n2 := (n / 2 - (n / 2) mod 8)%nat in
      pairwise_sum (take n2 a) + pairwise_sum (drop n2 a).
Proof.
  cbv zeta. unfold pairwise_sum at 1.
  destruct (length a) as [|d] eqn:El.
  { apply nil_length_inv in El. subst a. reflexivity. }
  cbn [pairwise_sum_rec]. rewrite El.
  destruct (S d <? 8)%nat; [reflexivity|].
  destruct (S d <=? 128)%nat eqn:E128; [reflexivity|].
  apply Nat.leb_gt in E128. pose proof (halving_bounds _ E128) as Hh.
  unfold pairwise_sum.
  f_equal; apply pairwise_sum_rec_depth; rewrite ?length_take, ?length_drop; lia.
Qed.

(** A run that fits the buffer is one call of the inner loop. *)
Lemma np_sum_buffered_one (size : nat) (a : list F) :
  (0 < length a <= size)%nat -> np_sum_buffered size a = of_Z 0 + pairwise_sum a.
Proof.
  intros Hlen. unfold np_sum_buffered.
  replace ((length a + size - 1) / size)%nat with 1%nat
    by (apply (Nat.div_unique _ _ 1 (length a - 1)); lia).
  cbn [seq fold_left]. change (0 * size)%nat with 0%nat. rewrite drop_0.
  rewrite take_ge by (destruct Hlen; assumption). reflexivity.
Qed.

Lemma bufsize_bound : (128 <= bufsize)%nat.
Proof. apply Nat.leb_le. vm_compute. reflexivity. Qed.

Lemma np_sum_one_buffer (a : list F) :
  (0 < length a <= bufsize)%nat -> np_sum a = of_Z 0 + pairwise_sum a.
Proof. apply np_sum_buffered_one. Qed.

(** Fewer than 8 terms are added from the left. *)
Lemma np_sum_short (a : list F) :
  (0 < length a < 8)%nat -> np_sum a = of_Z 0 + fold_left f_add a (of_Z 0).
Proof.
  intros Hlen. pose proof bufsize_bound as Hb.
  rewrite np_sum_one_buffer by lia. rewrite pairwise_sum_unfold. cbv zeta.
  destruct Hlen as [_ Hlen]. apply Nat.ltb_lt in Hlen. now rewrite Hlen.
Qed.

Section Closed.
(** A set of numbers that holds 0 and is closed under addition holds every
    sum of its members, in whatever order the sum is taken. *)
Variable P : F -> Prop.
Hypothesis P_zero : P (of_Z 0).
Hypothesis P_add : forall x y, P x -> P y -> P (x + y).

Lemma fold_add_closed (a : list F) (z : F) :
  P z -> Forall P a -> P (fold_left f_add a z).
Proof using P_add.
  intros Hz Ha. revert z Hz. induction Ha as [|x a Hx _ IH]; simpl; intros z Hz; auto.
Qed.

Lemma zip_add_closed (r s : list F) :
  Forall P r -> Forall P s -> Forall P (zip_with f_add r s).
Proof using P_add.
  intros Hr. revert s. induction Hr as [|x r Hx _ IH]; intros s Hs; [constructor|].
  destruct Hs as [|y s Hy Hs]; simpl; constructor; auto.
Qed.

Lemma unrolled8_closed (k : nat) (r a : list F) :
  Forall P r -> Forall P a -> Forall P (unrolled8 k r a).
Proof using P_add.
  revert r a. induction k as [|k IH]; intros r a Hr Ha; simpl; [exact Hr|].
  apply IH.
  - apply zip_add_closed; [exact Hr|now apply Forall_take].
  - now apply Forall_drop.
Qed.

Lemma nth_closed (i : nat) (r : list F) : Forall P r -> P (nth i r (of_Z 0)).
Proof using P_zero.
  intros Hr. rewrite nth_lookup. destruct (r !! i) as [x|] eqn:E; simpl; [|exact P_zero].
  exact (Forall_lookup_1 _ _ _ _ Hr E).
Qed.

Lemma pairwise_block_closed (a : list F) : Forall P a -> P (pairwise_block a).
Proof using P_zero P_add.
  intros Ha. unfold pairwise_block.
  assert (Hr : Forall P (unrolled8 (length a / 8 - 1) (take 8 a) (drop 8 a))).
  { apply unrolled8_closed; [now apply Forall_take|now apply Forall_drop]. }
  apply fold_add_closed; [|now apply Forall_drop].
  repeat apply P_add; now apply nth_closed.
Qed.

Lemma pairwise_sum_rec_closed (d : nat) (a : list F) :
  Forall P a -> P (pairwise_sum_rec d a).
Proof using P_zero P_add.
  revert a. induction d as [|d IH]; intros a Ha; cbn [pairwise_sum_rec];
    (destruct (length a <? 8)%nat; [now apply fold_add_closed|]);
    (destruct (length a <=? 128)%nat; [now apply pairwise_block_closed|]).
  - now apply pairwise_block_closed.
  - apply P_add; apply IH; [now apply Forall_take|now apply Forall_drop].
Qed.

Lemma np_sum_closed (a : list F) : Forall P a -> P (np_sum a).
Proof using P_zero P_add.
  intros Ha. unfold np_sum, np_sum_buffered.
  generalize (seq 0 ((length a + bufsize - 1) / bufsize)). intros chunks.
  generalize P_zero. generalize (of_Z 0).
  induction chunks as [|i chunks IH]; intros out Hout; cbn [fold_left]; [exact Hout|].
  apply IH, P_add; [exact Hout|].
  apply pairwise_sum_rec_closed. now apply Forall_take, Forall_drop.
Qed.
End Closed.
End PairwiseSumFacts.

(** Where addition is associative and commutative with 0 neutral, as in
    exact arithmetic, [np.sum] is the sum of all its terms, each once. *)
Section SumExact.
Context {F : Type} `{Arith F}.
Local Open Scope arith_scope.
Hypothesis add_assoc : forall x y z : F, x + (y + z) = (x + y) + z.
Hypothesis add_comm : forall x y : F, x + y = y + x.
Hypothesis add_0_l : forall x : F, of_Z 0 + x = x.

Lemma total_app (a b : list F) : total (a ++ b) = total a + total b.
Proof using add_assoc add_0_l.
  induction a as [|x a IH]; simpl; [now rewrite add_0_l|].
  now rewrite IH, add_assoc.
Qed.

Lemma fold_add_total (a : list F) (z : F) : fold_left f_add a z = z + total a.
Proof using add_assoc add_comm add_0_l.
  revert z. induction a as [|x a IH]; intros z; simpl.
  - now rewrite add_comm, add_0_l.
  - now rewrite IH, add_assoc.
Qed.

Lemma total_zip_add (r s : list F) :
  length r = length s -> total (zip_with f_add r s) = total r + total s.
Proof using add_assoc add_comm add_0_l.
  revert s. induction r as [|x r IH]; intros [|y s] Hlen; try discriminate; simpl.
  - now rewrite add_0_l.
  - rewrite IH by (simpl in Hlen; lia).
    rewrite !add_assoc. f_equal. rewrite <- !add_assoc. f_equal. apply add_comm.
Qed.

Lemma unrolled8_total (k : nat) (r a : list F) :
  length r = 8%nat -> (8 * k <= length a)%nat ->
  length (unrolled8 k r a) = 8%nat
  /\ total (unrolled8 k r a) = total r + total (take (8 * k) a).
Proof using add_assoc add_comm add_0_l.
  revert r a. induction k as [|k IH]; intros r a Hr Ha.
  - simpl. split; [exact Hr|]. now rewrite add_comm, add_0_l.
  - cbn [unrolled8].
    assert (Ht : length (take 8 a) = 8%nat) by (rewrite length_take; lia).
    destruct (IH (zip_with f_add r (take 8 a)) (drop 8 a)) as [Hl Ht'].
    + rewrite length_zip_with. lia.
    + rewrite length_drop. lia.
    + split; [exact Hl|]. rewrite Ht', total_zip_add by lia.
      rewrite <- add_assoc, <- total_app, take_take_drop.
      now replace (8 * S k)%nat with (8 + 8 * k)%nat by lia.
Qed.

Lemma total_eight (r : list F) :
  length r = 8%nat ->
  ((nth 0 r (of_Z 0) + nth 1 r (of_Z 0)) + (nth 2 r (of_Z 0) + nth 3 r (of_Z 0)))
  + ((nth 4 r (of_Z 0) + nth 5 r (of_Z 0)) + (nth 6 r (of_Z 0) + nth 7 r (of_Z 0)))
  = total r.
Proof using add_assoc add_comm add_0_l.
  intros Hr.
  destruct r as [|r0 [|r1 [|r2 [|r3 [|r4 [|r5 [|r6 [|r7 [|]]]]]]]]]; try discriminate.
  simpl. rewrite (add_comm r7 (of_Z 0)), add_0_l. now rewrite !add_assoc.
Qed.

Lemma pairwise_block_total (a : list F) :
  (8 <= length a)%nat -> pairwise_block a = total a.
Proof using add_assoc add_comm add_0_l.
  intros Hlen. unfold pairwise_block.
  pose proof (Nat.div_mod_eq (length a) 8) as Ed.
  pose proof (Nat.mod_upper_bound (length a) 8 ltac:(lia)) as Bd.
  destruct (unrolled8_total (length a / 8 - 1) (take 8 a) (drop 8 a)) as [Hl Ht].
  { rewrite length_take. lia. }
  { rewrite length_drop. lia. }
  rewrite fold_add_total, (total_eight _ Hl), Ht.
  rewrite <- !total_app, take_take_drop.
  replace (8 + 8 * (length a / 8 - 1))%nat with (length a - length a mod 8)%nat by lia.
  now rewrite take_drop.
Qed.

Lemma pairwise_sum_rec_total (d : nat) (a : list F) : pairwise_sum_rec d a = total a.
Proof using add_assoc add_comm add_0_l.
  revert a. induction d as [|d IH]; intros a; cbn [pairwise_sum_rec];
    (destruct (length a <? 8)%nat eqn:E8; [now rewrite fold_add_total, add_0_l|]);
    apply Nat.ltb_ge in E8;
    (destruct (length a <=? 128)%nat; [now apply pairwise_block_total|]).
  - now apply pairwise_block_total.
  - now rewrite !IH, <- total_app, take_drop.
Qed.

Lemma chunks_total (size k j : nat) (a : list F) (out : F) :
  (length a <= (j + k) * size)%nat ->
  fold_left (fun out i => out + pairwise_sum (take size (drop (i * size) a)))
            (seq j k) out
  = out + total (drop (j * size) a).
Proof using add_assoc add_comm add_0_l.
  revert j out. induction k as [|k IH]; intros j out Hlen.
  - rewrite Nat.add_0_r in Hlen. rewrite drop_ge by exact Hlen.
    simpl. now rewrite add_comm, add_0_l.
  - cbn [seq fold_left].
    rewrite IH by (replace (S j + k)%nat with (j + S k)%nat by lia; exact Hlen).
    unfold pairwise_sum. rewrite pairwise_sum_rec_total.
    replace (S j * size)%nat with (j * size + size)%nat by (simpl; lia).
    rewrite <- drop_drop, <- add_assoc, <- total_app. now rewrite take_drop.
Qed.

Lemma np_sum_total (a : list F) : np_sum a = total a.
Proof using add_assoc add_comm add_0_l.
  unfold np_sum, np_sum_buffered. rewrite chunks_total, add_0_l; [reflexivity|].
  cbn [Nat.add].
  pose proof bufsize_bound as Hb. revert Hb. generalize bufsize. intros size Hb.
  pose proof (Nat.div_mod_eq (length a + size - 1) size) as Ed.
  pose proof (Nat.mod_upper_bound (length a + size - 1) size ltac:(lia)) as Bd.
  nia.
Qed.
End SumExact.

Lemma np_sum_real (a : list R) : np_sum a = fold_right Rplus 0%R a.
Proof. change (np_sum a = total a). apply np_sum_total; intros; simpl; ring. Qed.

(** At float64 the order shows: twelve times 0.1 sum to 1.2000000000000002
    as numpy adds them, and to 1.2 from left to right. *)
Example np_sum_is_not_left_to_right :
  np_sum (replicate 12 0.1%float) = 1.2000000000000002%float
  /\ fold_left PrimFloat.add (replicate 12 0.1%float) 0%float = 1.2%float.
Proof. split; vm_compute; reflexivity. Qed.

(** ** Sums over the channel and sample axes *)

Lemma list_prod_map_l {A A' B : Type} (g : A -> A') (xs : list A) (ys : list B) :
  list_prod (map g xs) ys = map (fun p => (g (fst p), snd p)) (list_prod xs ys).
Proof.
  induction xs as [|x xs IH]; simpl; [reflexivity|].
  rewrite IH, map_app, map_map. reflexivity.
Qed.

Lemma row_index {A : Type} (r : list A) (T : nat) (d : A) :
  length r = T -> r = map (fun t => nth t r d) (seq 0 T).
Proof.
  revert T. induction r as [|x r IH]; intros T <-; simpl; [reflexivity|].
  f_equal. rewrite <- seq_shift, map_map. simpl. now apply IH.
Qed.

Section MetricFacts.
Context {F : Type} `{Arith F}.
Variable log10 : F -> F.

Local Open Scope arith_scope.

Lemma concat_index (m : array2 F) (C T : nat) :
  has_shape2 m C T ->
  concat m = map (fun ct => at2 m (fst ct) (snd ct)) (list_prod (seq 0 C) (seq 0 T)).
Proof.
  intros [Hlen Hrows]. revert C Hlen.
  induction Hrows as [|r m Hr _ IH]; intros C <-; simpl; [reflexivity|].
  rewrite map_app, map_map. f_equal.
  - unfold at2. simpl. now apply row_index.
  - rewrite <- seq_shift, list_prod_map_l, map_map. simpl.
    now apply IH.
Qed.

Lemma sum_axes_index (g : F -> F) (m : array2 F) (C T : nat) :
  has_shape2 m C T ->
  np_sum (concat (map (map g) m))
  = sum_ct C T (fun c t => g (at2 m c t)).
Proof.
  intros Hm. rewrite <- concat_map, (concat_index m C T Hm), map_map.
  reflexivity.
Qed.

Lemma sum_ct_ext (C T : nat) (f g : nat -> nat -> F) :
  (forall c t, (c < C)%nat -> (t < T)%nat -> f c t = g c t) ->
  sum_ct C T f = sum_ct C T g.
Proof.
  intros Hfg. unfold sum_ct. f_equal. apply map_ext_in.
  intros [c t] Hin. simpl.
  apply in_prod_iff in Hin as [Hc Ht].
  apply in_seq in Hc, Ht. apply Hfg; lia.
Qed.

Lemma at2_lookup (m : array2 F) (c t : nat) (r : list F) (x : F) :
  m !! c = Some r -> r !! t = Some x -> at2 m c t = x.
Proof.
  intros Hc Ht. unfold at2.
  rewrite (nth_lookup_Some _ _ _ _ Hc). now apply nth_lookup_Some.
Qed.

Lemma at2_zip_with (op : F -> F -> F) (a b : array2 F) (C T c t : nat) :
  has_shape2 a C T -> has_shape2 b C T -> (c < C)%nat -> (t < T)%nat ->
  at2 (zip_with (zip_with op) a b) c t = op (at2 a c t) (at2 b c t).
Proof.
  intros [Ha Hra] [Hb Hrb] Hc Ht.
  destruct (lookup_lt_is_Some_2 a c ltac:(lia)) as [ra Era].
  destruct (lookup_lt_is_Some_2 b c ltac:(lia)) as [rb Erb].
  rewrite Forall_forall in Hra, Hrb.
  pose proof (Hra _ (list_elem_of_lookup_2 _ _ _ Era)) as Hla.
  pose proof (Hrb _ (list_elem_of_lookup_2 _ _ _ Erb)) as Hlb.
  destruct (lookup_lt_is_Some_2 ra t ltac:(lia)) as [x Ex].
  destruct (lookup_lt_is_Some_2 rb t ltac:(lia)) as [y Ey].
  rewrite (at2_lookup a c t ra x Era Ex), (at2_lookup b c t rb y Erb Ey).
  apply (at2_lookup _ c t (zip_with op ra rb)).
  - rewrite lookup_zip_with, Era. simpl. now rewrite Erb.
  - rewrite lookup_zip_with, Ex. simpl. now rewrite Ey.
Qed.

Lemma sum_axes12_square (a : array3 F) : sum_axes12 (square3 a) = map energy a.
Proof. unfold sum_axes12, square3. now rewrite map_map. Qed.

(** [sdr] on equal shapes: the vectorised pipeline is the per-element
    formula. *)
Lemma sdr_equal_shapes (references estimates : array3 F) (B C T : nat) :
  has_shape3 references B C T -> has_shape3 estimates B C T ->
  sdr log10 references estimates
  = Ok (map (sdr_spec log10 C T references estimates) (seq 0 B)).
Proof.
  intros Hr He. unfold sdr.
  rewrite (ew3_same f_sub _ _ B C T Hr He). simpl.
  destruct Hr as [Hlr Hsr], He as [Hle Hse].
  unfold sum_axes12, square3. rewrite !map_map.
  rewrite ew1_same by (rewrite !length_map, length_zip_with; lia).
  simpl. f_equal. apply list_eq. intros b.
  rewrite !list_lookup_fmap, lookup_zip_with, !list_lookup_fmap, lookup_zip_with.
  destruct (decide (b < B)%nat) as [Hb|Hb].
  - destruct (lookup_lt_is_Some_2 references b ltac:(lia)) as [r Er].
    destruct (lookup_lt_is_Some_2 estimates b ltac:(lia)) as [e Ee].
    rewrite Er, Ee, lookup_seq_lt by lia. simpl. f_equal.
    rewrite Forall_forall in Hsr, Hse.
    pose proof (Hsr _ (list_elem_of_lookup_2 _ _ _ Er)) as Hshr.
    pose proof (Hse _ (list_elem_of_lookup_2 _ _ _ Ee)) as Hshe.
    unfold sdr_spec, sdr_formula, at3.
    rewrite (nth_lookup_Some _ _ _ _ Er), (nth_lookup_Some _ _ _ _ Ee).
    rewrite (sum_axes_index (fun x => x * x) r C T Hshr).
    rewrite (sum_axes_index (fun x => x * x) _ C T (zip_with_shape2 f_sub r e C T Hshr Hshe)).
    do 4 f_equal. apply sum_ct_ext. intros c t Hc Ht.
    now rewrite (at2_zip_with f_sub r e C T c t Hshr Hshe Hc Ht).
  - rewrite (lookup_ge_None_2 references) by lia.
    rewrite lookup_seq_ge by lia. reflexivity.
Qed.
End MetricFacts.

(** ** The metric engine *)



(** At float64 the value is the one numpy's order of addition gives: on
    these twelve samples against their reversal the logarithm is taken of
    1.1363636339796568, where sums from left to right would give
    1.136363633979657. *)
Example sdr_adds_as_numpy (log10 : float -> float) :
  let samples := [0.1; 0.2; 0.3; 0.4; 0.5; 0.6; 0.7; 0.8; 0.9; 1.0; 1.1; 1.2]%float in
  sdr log10 [[samples]] [[rev samples]] = Ok [10 * log10 1.1363636339796568]%float
  /\ (let num := fold_left PrimFloat.add (map (fun x => x * x) samples) 0 + delta in
      let den := fold_left PrimFloat.add
                   (map (fun x => x * x) (zip_with PrimFloat.sub samples (rev samples))) 0
                 + delta in
      num / den = 1.136363633979657)%float.
Proof. repeat split; vm_compute; reflexivity. Qed.

(** The prefix of a row is read at the same indices as the row. *)
Lemma at2_take {F : Type} `{Arith F} (a : array2 F) (n c t : nat) :
  (t < n)%nat -> at2 (map (take n) a) c t = at2 a c t.
Proof.
  intros Ht. unfold at2.
  rewrite !nth_lookup, list_lookup_fmap.
  destruct (a !! c) as [r|]; simpl.
  - now rewrite lookup_take_lt by lia.
  - reflexivity.
Qed.

Lemma take_shape2 {F : Type} (a : array2 F) (C N n : nat) :
  has_shape2 a C N -> (n <= N)%nat -> has_shape2 (map (take n) a) C n.
Proof.
  intros [Hlen Hrows] Hn. split; [now rewrite length_map|].
  apply Forall_fmap. eapply Forall_impl; [exact Hrows|].
  intros r Hr. simpl. rewrite length_take, Hr. lia.
Qed.

Lemma shape1_rows {F : Type} (a : array2 F) (C N : nat) :
  (0 < C)%nat -> has_shape2 a C N -> shape1 a = N.
Proof.
  intros HC [Hlen Hrows]. destruct Hrows as [|r a Hr _]; simpl in *; [lia|exact Hr].
Qed.

(** The kernels of the metric raise nothing but the broadcasting error. *)
Lemma for_each_raises {A B : Type} (f : A -> result B) (l : list A) (e e0 : exn) :
  (forall x e', f x = Raise e' -> e' = e0) -> for_each f l = Raise e -> e = e0.
Proof.
  intros Hf. induction l as [|x l IH]; simpl; [discriminate|].
  destruct (f x) as [y|e'] eqn:Ex.
  - destruct (for_each f l) as [ys|e'']; [discriminate|].
    intros E. injection E as <-. now apply IH.
  - intros E. injection E as <-. now apply (Hf x).
Qed.

Lemma broadcast_raises {A B C : Type} (f : A -> B -> result C) xs ys (e : exn) :
  (forall x y e', f x y = Raise e' -> e' = broadcast_error) ->
  broadcast f xs ys = Raise e -> e = broadcast_error.
Proof.
  intros Hf. unfold broadcast.
  destruct (Nat.eqb _ _).
  - apply for_each_raises. intros [x y]. apply Hf.
  - destruct xs as [|x [|x' xs]].
    + destruct ys as [|y [|y' ys]]; try congruence.
      apply for_each_raises. intros x'. apply Hf.
    + apply for_each_raises. apply Hf.
    + destruct ys as [|y [|y' ys]]; try congruence.
      apply for_each_raises. intros x''. apply Hf.
Qed.

Lemma ew3_raises {F : Type} (op : F -> F -> F) (a b : array3 F) (e : exn) :
  ew3 op a b = Raise e -> e = broadcast_error.
Proof.
  apply broadcast_raises. intros m n e'.
  apply broadcast_raises. intros r r' e''.
  apply broadcast_raises. intros x y e3. discriminate.
Qed.

Lemma sdr_raises {F : Type} `{Arith F} (log10 : F -> F)
    (references estimates : array3 F) (e : exn) :
  sdr log10 references estimates = Raise e -> e = broadcast_error.
Proof.
  unfold sdr. destruct (ew3 f_sub references estimates) as [diff|e'] eqn:E3.
  - cbn [mbind result_bind].
    destruct (ew1 f_div _ _) as [ratio|e'] eqn:E1; [discriminate|].
    cbn [mbind result_bind]. intros E. injection E as <-.
    revert E1. apply broadcast_raises. intros x y e3. discriminate.
  - cbn [mbind result_bind]. intros E. injection E as <-.
    now apply ew3_raises in E3.
Qed.

(** C8.  For 2-D signals with [N1] and [N2] samples, [get_sdr] trims to
    [n = min N1 N2], which is within both lengths.  The trimmed signals are
    the length-[n] prefixes of the channels, sample for sample, and the
    result is that of [sdr] on these prefixes: the slicing raises nothing,
    so the only exception of [get_sdr] is the broadcasting error of [sdr]
    on unequal channel counts, never an index error.  When the channel
    counts agree, [get_sdr] returns the SDR whose sums run over the samples
    [t < n] of every channel. *)
Theorem get_sdr_trims_to_shorter {F : Type} `{Arith F} (log10 : F -> F)
    (original_signal model_signal : array2 F) (C1 C2 N1 N2 : nat) :
  (0 < C1)%nat -> (0 < C2)%nat ->
  has_shape2 original_signal C1 N1 ->
  has_shape2 model_signal C2 N2 ->
  let n := Nat.min (shape1 original_signal) (shape1 model_signal) in
  n = Nat.min N1 N2 /\ (n <= N1)%nat /\ (n <= N2)%nat
  /\ has_shape2 (map (take n) original_signal) C1 n
  /\ has_shape2 (map (take n) model_signal) C2 n
  /\ (forall c t, (t < n)%nat ->
        at2 (map (take n) original_signal) c t = at2 original_signal c t
        /\ at2 (map (take n) model_signal) c t = at2 model_signal c t)
  /\ get_sdr log10 original_signal model_signal
     = sdr log10 [map (take n) original_signal] [map (take n) model_signal]
  /\ (forall e, get_sdr log10 original_signal model_signal = Raise e ->
        e = broadcast_error)
  /\ (C1 = C2 ->
      get_sdr log10 original_signal model_signal
      = Ok [sdr_formula log10
              (sum_ct C1 n (fun c t =>
                 f_mul (at2 original_signal c t) (at2 original_signal c t)))
              (sum_ct C1 n (fun c t =>
                 f_mul (f_sub (at2 original_signal c t) (at2 model_signal c t))
                       (f_sub (at2 original_signal c t) (at2 model_signal c t))))]).
Proof.
  intros HC1 HC2 Ho Hm n.
  assert (Hn : n = Nat.min N1 N2).
  { unfold n. now rewrite (shape1_rows _ C1 N1 HC1 Ho), (shape1_rows _ C2 N2 HC2 Hm). }
  pose proof (take_shape2 _ C1 N1 n Ho ltac:(lia)) as Ho'.
  pose proof (take_shape2 _ C2 N2 n Hm ltac:(lia)) as Hm'.
  split; [exact Hn|]. split; [lia|]. split; [lia|].
  split; [exact Ho'|]. split; [exact Hm'|].
  split; [intros c t Ht; split; now apply at2_take|].
  split; [reflexivity|].
  split; [intros e; apply sdr_raises|].
  intros <-. unfold get_sdr. fold n.
  rewrite (sdr_equal_shapes log10 _ _ 1 C1 n).
  - simpl. do 2 f_equal. unfold sdr_spec, at3. simpl. f_equal.
    + apply sum_ct_ext. intros c t _ Ht. now rewrite at2_take.
    + apply sum_ct_ext. intros c t _ Ht. now rewrite !at2_take.
  - split; [reflexivity|]. constructor; [exact Ho'|constructor].
  - split; [reflexivity|]. constructor; [exact Hm'|constructor].
Qed.

Lemma get_sdr_trims_to_shorter_witness :
  (0 < 1)%nat /\ (0 < 1)%nat
  /\ has_shape2 [replicate 100 1%R] 1 100
  /\ has_shape2 [replicate 97 2%R] 1 97
  /\ let n := Nat.min (shape1 [replicate 100 1%R]) (shape1 [replicate 97 2%R]) in
     n = Nat.min 100 97 /\ (n <= 100)%nat /\ (n <= 97)%nat
     /\ has_shape2 (map (take n) [replicate 100 1%R]) 1 n
     /\ has_shape2 (map (take n) [replicate 97 2%R]) 1 n
     /\ (forall c t, (t < n)%nat ->
           at2 (map (take n) [replicate 100 1%R]) c t = at2 [replicate 100 1%R] c t
           /\ at2 (map (take n) [replicate 97 2%R]) c t = at2 [replicate 97 2%R] c t)
     /\ get_sdr Rlog10 [replicate 100 1%R] [replicate 97 2%R]
        = sdr Rlog10 [map (take n) [replicate 100 1%R]] [map (take n) [replicate 97 2%R]]
     /\ (forall e, get_sdr Rlog10 [replicate 100 1%R] [replicate 97 2%R] = Raise e ->
           e = broadcast_error)
     /\ (1%nat = 1%nat ->
         get_sdr Rlog10 [replicate 100 1%R] [replicate 97 2%R]
         = Ok [sdr_formula Rlog10
                 (sum_ct 1 n (fun c t =>
                    f_mul (at2 [replicate 100 1%R] c t) (at2 [replicate 100 1%R] c t)))
                 (sum_ct 1 n (fun c t =>
                    f_mul (f_sub (at2 [replicate 100 1%R] c t) (at2 [replicate 97 2%R] c t))
                          (f_sub (at2 [replicate 100 1%R] c t) (at2 [replicate 97 2%R] c t))))]).
Proof.
  assert (H0 : (0 < 1)%nat) by lia.
  assert (H1 : has_shape2 [replicate 100 1%R] 1 100)
    by (split; [reflexivity|repeat constructor]).
  assert (H2 : has_shape2 [replicate 97 2%R] 1 97)
    by (split; [reflexivity|repeat constructor]).
  split; [exact H0|]. split; [exact H0|]. split; [exact H1|]. split; [exact H2|].
  exact (get_sdr_trims_to_shorter Rlog10 _ _ 1 1 100 97 H0 H0 H1 H2).
Defined.

(** ** The metric on equal signals *)

Lemma ew3_diag {F : Type} (op : F -> F -> F) (a : array3 F) :
  ew3 op a a = Ok (map (map (map (fun x => op x x))) a).
Proof.
  assert (D1 : forall r : array1 F, ew1 op r r = Ok (map (fun x => op x x) r)).
  { intros r. unfold ew1. rewrite (broadcast_pure op); [now rewrite zip_with_diag|].
    induction r; constructor; auto. }
  assert (D2 : forall m : array2 F, ew2 op m m = Ok (map (map (fun x => op x x)) m)).
  { intros m. unfold ew2. rewrite (broadcast_pure (fun r _ => map (fun x => op x x) r)).
    - now rewrite zip_with_diag.
    - induction m; constructor; auto. }
  unfold ew3. rewrite (broadcast_pure (fun m _ => map (map (fun x => op x x)) m)).
  - now rewrite zip_with_diag.
  - induction a; constructor; auto.
Qed.

Section EqualSignals.
Context {F : Type} `{Arith F}.
Variable log10 : F -> F.
Local Open Scope arith_scope.

(** The samples on which the difference with itself is 0, in an
    arithmetic where [0 * 0] and [0 + 0] are 0. *)
Variable sample : F -> Prop.
Hypothesis sub_diag : forall x, sample x -> x - x = of_Z 0.
Hypothesis zero_square : of_Z 0 * of_Z 0 = of_Z 0.
Hypothesis zero_plus_zero : of_Z 0 + of_Z 0 = of_Z 0.

Lemma error_energy_zero (m : array2 F) :
  Forall (Forall sample) m -> energy (map (map (fun x => x - x)) m) = of_Z 0.
Proof using sub_diag zero_square zero_plus_zero.
  intros Hm. unfold energy.
  apply (np_sum_closed (fun x => x = of_Z 0)); [reflexivity| |].
  - intros x y -> ->. exact zero_plus_zero.
  - apply Forall_concat. rewrite <- !list_fmap_compose.
    apply Forall_fmap. eapply Forall_impl; [exact Hm|].
    intros r Hr. unfold compose. rewrite <- list_fmap_compose.
    apply Forall_fmap. eapply Forall_impl; [exact Hr|].
    intros x Hx. unfold compose. now rewrite (sub_diag x Hx).
Qed.

Lemma sdr_equal_value (references : array3 F) :
  Forall (Forall (Forall sample)) references ->
  sdr log10 references references
  = Ok (map (fun m => of_Z 10 * log10 ((energy m + lit 1 10000000)
                                        / (of_Z 0 + lit 1 10000000)))
            references).
Proof using sub_diag zero_square zero_plus_zero.
  intros Hrefs. unfold sdr. rewrite ew3_diag. cbn [mbind result_bind].
  rewrite !sum_axes12_square.
  rewrite ew1_same by now rewrite !length_map.
  cbn [mbind result_bind]. f_equal.
  induction Hrefs as [|m refs Hm _ IH]; [reflexivity|].
  cbn [map zip_with]. rewrite IH. f_equal.
  now rewrite (error_energy_zero m Hm).
Qed.
End EqualSignals.

(** *** Doubles that are numbers not below zero *)

Lemma shr_1_nonneg (mrs : shr_record) :
  (0 <= shr_m mrs)%Z -> (0 <= shr_m (shr_1 mrs))%Z.
Proof. destruct mrs as [[|[p|p|]|p] r s]; simpl; lia. Qed.

Lemma iter_shr_1_nonneg (p : positive) (mrs : shr_record) :
  (0 <= shr_m mrs)%Z -> (0 <= shr_m (SpecFloat.iter_pos shr_1 p mrs))%Z.
Proof.
  revert mrs. induction p as [p IH|p IH|]; intros mrs Hm; simpl.
  - apply IH, IH, shr_1_nonneg, Hm.
  - apply IH, IH, Hm.
  - now apply shr_1_nonneg.
Qed.

Lemma shr_fexp_nonneg (prec emax m e : Z) (l : location) :
  (0 <= m)%Z -> (0 <= shr_m (fst (shr_fexp prec emax m e l)))%Z.
Proof.
  intros Hm. unfold shr_fexp, shr.
  assert (H0 : (0 <= shr_m (shr_record_of_loc m l))%Z) by (destruct l as [|[]]; exact Hm).
  destruct (_ - e)%Z; simpl; try exact H0. now apply iter_shr_1_nonneg.
Qed.

Lemma round_nearest_even_nonneg (m : Z) (l : location) :
  (0 <= m)%Z -> (0 <= round_nearest_even m l)%Z.
Proof.
  intros Hm. unfold round_nearest_even.
  destruct l as [|[]]; try lia. destruct (Z.even m); lia.
Qed.

(** Rounding a magnitude gives a zero, a finite double or an infinity of
    the given sign, never NaN. *)
Lemma binary_round_aux_signed (prec emax : Z) (s : bool) (mx ex : Z) (lx : location) :
  (0 <= mx)%Z -> sf_signed s (binary_round_aux prec emax s mx ex lx).
Proof.
  intros Hm. unfold binary_round_aux.
  pose proof (shr_fexp_nonneg prec emax mx ex lx Hm) as H1.
  destruct (shr_fexp prec emax mx ex lx) as [mrs' e']. simpl in H1.
  pose proof (shr_fexp_nonneg prec emax _ e' loc_Exact
                (round_nearest_even_nonneg _ (loc_of_shr_record mrs') H1)) as H2.
  destruct (shr_fexp prec emax _ e' loc_Exact) as [mrs'' e'']. simpl in H2.
  destruct (shr_m mrs''); [reflexivity| |lia].
  destruct (_ <=? _)%Z; reflexivity.
Qed.

Lemma binary_round_signed (prec emax : Z) (s : bool) (m : positive) (e : Z) :
  sf_signed s (binary_round prec emax s m e).
Proof.
  unfold binary_round. destruct (shl_align _ _ _) as [mz ez].
  apply binary_round_aux_signed. lia.
Qed.

Lemma sf_signed_not_below_zero (x : spec_float) :
  sf_signed false x -> sf_not_below_zero x = true.
Proof. destruct x; simpl; intros; subst; try reflexivity; contradiction. Qed.

Lemma SFadd_not_below_zero (prec emax : Z) (x y : spec_float) :
  sf_not_below_zero x = true -> sf_not_below_zero y = true ->
  sf_not_below_zero (SFadd prec emax x y) = true.
Proof.
  destruct x as [sx|sx| |sx mx ex], y as [sy|sy| |sy my ey]; simpl; try congruence;
    try (destruct sx, sy; simpl; congruence).
  intros Hx Hy. apply negb_true_iff in Hx, Hy. subst sx sy. simpl.
  apply sf_signed_not_below_zero, binary_round_signed.
Qed.

Lemma SFmul_square (prec emax : Z) (x : spec_float) :
  x <> S754_nan -> sf_not_below_zero (SFmul prec emax x x) = true.
Proof.
  destruct x as [s|s| |s m e]; simpl; try congruence; intros _.
  - now destruct s.
  - apply sf_signed_not_below_zero.
    replace (xorb s s) with false by now destruct s.
    apply binary_round_aux_signed. lia.
Qed.

Lemma SFdiv_not_below_zero (prec emax : Z) (x : spec_float) (m : positive) (e : Z) :
  sf_not_below_zero x = true ->
  sf_not_below_zero (SFdiv prec emax x (S754_finite false m e)) = true.
Proof.
  destruct x as [sx|sx| |sx mx ex]; simpl; try congruence.
  - now destruct sx.
  - intros Hx. apply negb_true_iff in Hx. subst sx. simpl.
    unfold SFdiv_core_binary.
    set (s := (_ - _ - _)%Z).
    set (m' := match s with 0%Z => _ | Z.pos _ => _ | Z.neg _ => _ end).
    assert (Hm' : (0 <= m')%Z).
    { unfold m'. destruct s; try lia. apply Z.shiftl_nonneg. lia. }
    pose proof (Z_div_mod m' (Z.pos m) ltac:(lia)) as Hdiv.
    destruct (Z.div_eucl m' (Z.pos m)) as [q r].
    apply sf_signed_not_below_zero, binary_round_aux_signed. nia.
Qed.

Lemma SFmul_not_nan (prec emax : Z) (s : bool) (m : positive) (e : Z) (y : spec_float) :
  y <> S754_nan -> SFmul prec emax (S754_finite s m e) y <> S754_nan.
Proof.
  destruct y as [sy|sy| |sy my ey]; simpl; try congruence. intros _.
  pose proof (binary_round_aux_signed prec emax (xorb s sy) (Z.pos (m * my)) (e + ey)
                loc_Exact ltac:(lia)) as Hs.
  intros E. rewrite E in Hs. exact Hs.
Qed.

Lemma SFsub_diag (prec emax : Z) (x : spec_float) :
  match x with S754_zero _ | S754_finite _ _ _ => True | _ => False end ->
  SFsub prec emax x x = S754_zero false.
Proof.
  destruct x as [s|s| |s m e]; simpl; try contradiction; intros _.
  - now destruct s.
  - rewrite Z.min_id. unfold shl_align. rewrite Z.sub_diag. simpl.
    reflexivity.
Qed.

Section FloatNumbers.
Local Open Scope float_scope.
Implicit Types x y : float.

Lemma is_nan_spec x :
  is_nan x = match Prim2SF x with S754_nan => true | _ => false end.
Proof.
  unfold is_nan. rewrite FloatAxioms.eqb_spec. unfold SFeqb.
  destruct (Prim2SF x) as [[]|[]| |[] m e]; simpl; try reflexivity;
    rewrite ?Z.compare_refl, ?Pos.compare_refl; try reflexivity.
  all: now rewrite Pos.compare_cont_refl.
Qed.

Lemma is_finite_spec x :
  is_finite x = true ->
  match Prim2SF x with S754_zero _ | S754_finite _ _ _ => True | _ => False end.
Proof.
  unfold is_finite. rewrite is_nan_spec. unfold is_infinity.
  rewrite FloatAxioms.eqb_spec, abs_spec.
  destruct (Prim2SF x) as [[]|[]| |[] m e]; simpl; try exact (fun _ => I);
    intros Hf; try discriminate.
  all: vm_compute in Hf; discriminate.
Qed.

Lemma is_finite_not_nan x : is_finite x = true -> is_nan x = false.
Proof.
  intros Hf. apply is_finite_spec in Hf. rewrite is_nan_spec.
  now destruct (Prim2SF x).
Qed.

Lemma not_below_zero_not_nan x : not_below_zero x = true -> is_nan x = false.
Proof.
  unfold not_below_zero. rewrite is_nan_spec.
  now destruct (Prim2SF x).
Qed.

(** A finite double minus itself is [+0]. *)
Lemma sub_diag_finite x : is_finite x = true -> x - x = 0.
Proof.
  intros Hf. apply Prim2SF_inj. rewrite sub_spec.
  change (Prim2SF 0) with (S754_zero false).
  apply SFsub_diag, is_finite_spec, Hf.
Qed.

Lemma add_not_below_zero x y :
  not_below_zero x = true -> not_below_zero y = true -> not_below_zero (x + y) = true.
Proof. unfold not_below_zero. rewrite add_spec. apply SFadd_not_below_zero. Qed.

Lemma square_not_below_zero x : is_nan x = false -> not_below_zero (x * x) = true.
Proof.
  unfold not_below_zero. rewrite mul_spec, is_nan_spec. intros Hx.
  apply SFmul_square. intros E. now rewrite E in Hx.
Qed.

Lemma div_not_below_zero x y :
  not_below_zero x = true -> (0 <? y) = true -> is_finite y = true ->
  not_below_zero (x / y) = true.
Proof.
  unfold not_below_zero. rewrite div_spec, FloatAxioms.ltb_spec. intros Hx Hy Hf.
  apply is_finite_spec in Hf.
  change (Prim2SF 0) with (S754_zero false) in Hy.
  destruct (Prim2SF y) as [s|s| |s m e]; try contradiction; try (destruct s; discriminate).
  destruct s; [discriminate|]. now apply SFdiv_not_below_zero.
Qed.

Lemma mul_ten_not_nan y : is_nan y = false -> is_nan (10 * y) = false.
Proof.
  rewrite !is_nan_spec, mul_spec. intros Hy.
  assert (E : Prim2SF 10 = S754_finite false 5629499534213120 (-49))
    by (vm_compute; reflexivity).
  rewrite E.
  pose proof (SFmul_not_nan prec emax false 5629499534213120 (-49) (Prim2SF y)) as Hn.
  unfold SF64mul.
  destruct (SFmul _ _ _ _); try reflexivity. exfalso. apply Hn; [|reflexivity].
  intros E'. now rewrite E' in Hy.
Qed.

(** The reference energy of finite samples is a number not below zero
    (it is [+inf] when the sum overflows). *)
Lemma energy_not_below_zero (m : array2 float) :
  Forall (Forall (fun x => is_finite x = true)) m -> not_below_zero (energy m) = true.
Proof.
  intros Hm. unfold energy.
  apply (np_sum_closed (fun x => not_below_zero x = true)); [reflexivity| |].
  - apply add_not_below_zero.
  - apply Forall_concat, Forall_fmap. eapply Forall_impl; [exact Hm|].
    intros r Hr. unfold compose. apply Forall_fmap. eapply Forall_impl; [exact Hr|].
    intros x Hx. unfold compose. simpl.
    now apply square_not_below_zero, is_finite_not_nan.
Qed.

Lemma sdr_equal_value_float (log10 : float -> float) (references : array3 float) :
  Forall (Forall (Forall (fun x => is_finite x = true))) references ->
  sdr log10 references references
  = Ok (map (fun m => 10 * log10 ((energy m + delta) / delta)) references).
Proof.
  intros Hrefs.
  exact (sdr_equal_value log10 (fun x => is_finite x = true) sub_diag_finite
           eq_refl eq_refl references Hrefs).
Qed.
End FloatNumbers.

(** C7, as the code has it.  At float64, on equal reference and estimate
    whose samples are finite, the error energy is exactly 0 and the divisor
    exactly [delta], the double nearest 1e-7: [sdr] raises nothing and
    returns, per batch element with reference energy [S], the value
    [10 * log10 ((S + delta) / delta)].  The logarithm is taken of a number
    that is not below zero, and the value is not NaN ([np.log10] being NaN
    only at NaN and below zero). *)
Theorem sdr_equal_signals (log10 : float -> float) (references : array3 float) :
  (forall x : float, not_below_zero x = true -> is_nan (log10 x) = false) ->
  Forall (Forall (Forall (fun x => is_finite x = true))) references ->
  exists values : array1 float,
    sdr log10 references references = Ok values
    /\ Forall2 (fun m v =>
         energy (map (map (fun x => x - x)%float) m) = 0%float
         /\ (energy (map (map (fun x => x - x)%float) m) + delta)%float = delta
         /\ v = (10 * log10 ((energy m + delta) / delta))%float
         /\ not_below_zero ((energy m + delta) / delta)%float = true
         /\ is_nan v = false)
       references values.
Proof.
  intros Hlog Hrefs.
  exists (map (fun m => 10 * log10 ((energy m + delta) / delta))%float references).
  split; [now apply sdr_equal_value_float|].
  apply Forall2_fmap_r, Forall_Forall2_diag.
  eapply Forall_impl; [exact Hrefs|]. intros m Hm. cbv beta.
  assert (E0 : energy (map (map (fun x => x - x)%float) m) = 0%float).
  { exact (error_energy_zero (fun x => is_finite x = true) sub_diag_finite
             eq_refl eq_refl m Hm). }
  assert (Hq : not_below_zero ((energy m + delta) / delta)%float = true).
  { apply div_not_below_zero; [|reflexivity|reflexivity].
    apply add_not_below_zero; [now apply energy_not_below_zero|reflexivity]. }
  split; [exact E0|]. split; [rewrite E0; reflexivity|].
  split; [reflexivity|]. split; [exact Hq|].
  apply mul_ten_not_nan, Hlog, Hq.
Qed.

Lemma sdr_equal_signals_witness :
  (forall x : float, not_below_zero x = true -> is_nan ((fun y : float => y) x) = false)
  /\ Forall (Forall (Forall (fun x => is_finite x = true))) [[[0.5; -0.25]]]%float
  /\ exists values : array1 float,
       sdr (fun y : float => y) [[[0.5; -0.25]]]%float [[[0.5; -0.25]]]%float = Ok values
       /\ Forall2 (fun m v =>
            energy (map (map (fun x => x - x)%float) m) = 0%float
            /\ (energy (map (map (fun x => x - x)%float) m) + delta)%float = delta
            /\ v = (10 * ((energy m + delta) / delta))%float
            /\ not_below_zero ((energy m + delta) / delta)%float = true
            /\ is_nan v = false)
          [[[0.5; -0.25]]]%float values.
Proof.
  assert (Hlog : forall x : float,
            not_below_zero x = true -> is_nan ((fun y : float => y) x) = false)
    by exact not_below_zero_not_nan.
  assert (Hfin : Forall (Forall (Forall (fun x => is_finite x = true)))
                   [[[0.5; -0.25]]]%float)
    by (repeat constructor).
  split; [exact Hlog|]. split; [exact Hfin|].
  exact (sdr_equal_signals (fun y : float => y) _ Hlog Hfin).
Defined.

(** Where the float64 value stops being finite or bounded, whatever
    [np.log10] is: for the one-sample signal 2.0 the logarithm is taken of
    40000001.000000007, above [1 / delta]; for the sample 1e200 the
    reference energy overflows and the logarithm is taken of [+inf]; for an
    infinite sample the error energy is NaN and the logarithm is taken of
    NaN. *)
Example sdr_equal_signals_at_float64 (log10 : float -> float) :
  sdr log10 [[[2]]]%float [[[2]]]%float = Ok [10 * log10 40000001.000000007]%float
  /\ (1 / delta <? 40000001.000000007)%float = true
  /\ sdr log10 [[[1e200]]]%float [[[1e200]]]%float = Ok [10 * log10 infinity]%float
  /\ sdr log10 [[[infinity]]]%float [[[infinity]]]%float = Ok [10 * log10 nan]%float.
Proof. repeat split; vm_compute; reflexivity. Qed.

(** *** The bound of C7, in exact arithmetic *)

Section RealMetric.
Local Open Scope R_scope.

Lemma epsilon_pos : 0 < epsilon.
Proof. unfold epsilon, lit. simpl. lra. Qed.

Lemma ln_10_pos : 0 < ln 10.
Proof. rewrite <- ln_1. apply ln_increasing; lra. Qed.

Lemma Rlog10_le (x y : R) : 0 < x -> 0 < y -> (Rlog10 x <= Rlog10 y <-> x <= y).
Proof.
  intros Hx Hy. unfold Rlog10. pose proof ln_10_pos as H10. split.
  - intros Hle. destruct (Rle_or_lt x y) as [|Hlt]; [assumption|].
    pose proof (ln_increasing y x Hy Hlt) as Hln.
    apply (Rmult_le_compat_r (ln 10)) in Hle; [|lra].
    unfold Rdiv in Hle. rewrite !Rmult_assoc, Rinv_l, !Rmult_1_r in Hle by lra. lra.
  - intros [Hlt | ->]; [|lra].
    pose proof (ln_increasing x y Hx Hlt) as Hln.
    apply Rmult_le_compat_r; [|lra].
    left. now apply Rinv_0_lt_compat.
Qed.

Lemma Rlog10_nonneg (x : R) : 1 <= x -> 0 <= Rlog10 x.
Proof.
  intros Hx. replace 0 with (Rlog10 1).
  - apply Rlog10_le; lra.
  - unfold Rlog10. rewrite ln_1. lra.
Qed.

Lemma ratio_ge_1 (S : R) : 0 <= S -> 1 <= (S + epsilon) / epsilon.
Proof.
  intros HS. pose proof epsilon_pos as He.
  apply (Rmult_le_reg_r epsilon); [exact He|].
  unfold Rdiv. rewrite Rmult_assoc, Rinv_l by lra. lra.
Qed.

Lemma ratio_le_bound (S : R) :
  (S + epsilon) / epsilon <= 1 / epsilon <-> S + epsilon <= 1.
Proof.
  pose proof epsilon_pos as He.
  assert (Hi : 0 < / epsilon) by now apply Rinv_0_lt_compat.
  unfold Rdiv. split; intros Hle.
  - apply (Rmult_le_reg_r (/ epsilon)); assumption.
  - apply Rmult_le_compat_r; [lra|assumption].
Qed.

(** The value on a batch element of energy [S], against the claimed bound. *)
Lemma equal_value_bound (S : R) :
  0 <= S ->
  0 <= 10 * Rlog10 ((S + epsilon) / epsilon)
  /\ (10 * Rlog10 ((S + epsilon) / epsilon) <= 10 * Rlog10 (1 / epsilon)
      <-> S + epsilon <= 1).
Proof.
  intros HS. pose proof epsilon_pos as He.
  pose proof (ratio_ge_1 S HS) as Hq.
  assert (Hb : 0 < 1 / epsilon) by (apply Rdiv_lt_0_compat; lra).
  pose proof (Rlog10_nonneg _ Hq) as Hnn.
  pose proof (ratio_le_bound S) as Hiff.
  assert (Hqpos : 0 < (S + epsilon) / epsilon) by (eapply Rlt_le_trans; [|exact Hq]; lra).
  pose proof (Rlog10_le _ _ Hqpos Hb) as Hlog.
  revert Hnn Hiff Hlog.
  generalize (Rlog10 ((S + epsilon) / epsilon)) (Rlog10 (1 / epsilon)).
  intros a b Hnn Hiff Hlog. split; [lra|].
  rewrite <- Hiff, <- Hlog. split; intros; lra.
Qed.

Lemma sdr_equal_value_real (references : array3 R) :
  sdr Rlog10 references references
  = Ok (map (fun m => 10 * Rlog10 ((energy m + epsilon) / epsilon)) references).
Proof.
  rewrite (sdr_equal_value Rlog10 (fun _ => True)).
  - f_equal. apply map_ext. intros m. fold epsilon. simpl.
    now rewrite (Rplus_0_l epsilon).
  - intros x _. simpl. ring.
  - simpl. ring.
  - simpl. ring.
  - apply Forall_true. intros m. apply Forall_true. intros r. now apply Forall_true.
Qed.
End RealMetric.

(** C7, as stated, fails: a one-sample signal of value 2 compared with
    itself has SDR [10 * log10 ((4 + ε) / ε)], above [10 * log10 (1 / ε)]. *)
Lemma sdr_equal_signals_exceeds_bound :
  exists v : R,
    sdr Rlog10 [[[2%R]]] [[[2%R]]] = Ok [v]
    /\ (10 * Rlog10 (1 / epsilon) < v)%R.
Proof.
  exists (10 * Rlog10 ((energy [[2%R]] + epsilon) / epsilon))%R.
  split; [apply sdr_equal_value_real|].
  pose proof epsilon_pos as He.
  assert (HE : energy [[2%R]] = 4%R).
  { unfold energy. rewrite np_sum_short by (simpl; lia). simpl. lra. }
  rewrite HE.
  destruct (equal_value_bound 4 ltac:(lra)) as [_ Hiff].
  apply Rnot_le_lt. intros Hle. apply Hiff in Hle. lra.
Qed.

(** ** The weight grid *)

Lemma weight_combinations_value :
  weight_combinations
  = [(0, 10); (1, 9); (2, 8); (3, 7); (4, 6); (5, 5);
     (6, 4); (7, 3); (8, 2); (9, 1); (10, 0)]%float.
Proof. vm_compute. reflexivity. Qed.

(** C3.  With step 1 the grid is the 11 pairs [(w, 10 - w)] for
    [w = 0, 1, ..., 10]; the two components of every pair add up to exactly
    10, and [(0, 10)] and [(10, 0)] are among them. *)
Theorem weight_combinations_grid :
  weight_combinations
  = map (fun w => (w, 10 - w)%float) [0; 1; 2; 3; 4; 5; 6; 7; 8; 9; 10]%float
  /\ length weight_combinations = 11%nat
  /\ Forall (fun p => (fst p + snd p)%float = 10%float) weight_combinations
  /\ (0%float, 10%float) ∈ weight_combinations
  /\ (10%float, 0%float) ∈ weight_combinations.
Proof.
  rewrite weight_combinations_value.
  split; [vm_compute; reflexivity|].
  split; [reflexivity|].
  split; [repeat constructor|].
  split; [constructor|].
  do 10 apply list_elem_of_further. constructor.
Qed.

(** C9.  For every pair of the grid the divisor [weights.sum()] of the
    weighted average is exactly 10, and so compares unequal to 0. *)
Theorem grid_divisor_is_ten :
  Forall (fun w : float * float =>
            weights_sum (fst w) (snd w) = 10%float
            /\ (weights_sum (fst w) (snd w) =? 0)%float = false)
         weight_combinations.
Proof.
  rewrite weight_combinations_value.
  repeat constructor.
Qed.

(** ** Comparison of doubles *)

Lemma lexc_refl e m : lexc e m e m = Eq.
Proof. unfold lexc. now rewrite Z.compare_refl, Pos.compare_refl. Qed.

Lemma lexc_chain e1 m1 e2 m2 e3 m3 :
  match comp_chain (lexc e1 m1 e2 m2) (lexc e2 m2 e3 m3) with
  | Some c => lexc e1 m1 e3 m3 = c
  | None => True
  end.
Proof.
  unfold lexc.
  destruct (Z.compare_spec e1 e2), (Z.compare_spec e2 e3), (Z.compare_spec e1 e3);
    subst; try lia; simpl; try reflexivity;
  destruct (Pos.compare_spec m1 m2); subst; simpl; try reflexivity; try lia;
  destruct (Pos.compare_spec m2 m3); subst; simpl; try reflexivity; try lia;
  destruct (Pos.compare_spec m1 m3); subst; simpl; try reflexivity; try lia.
Qed.

Lemma SFcompare_finite s1 m1 e1 s2 m2 e2 :
  SFcompare (S754_finite s1 m1 e1) (S754_finite s2 m2 e2)
  = Some (if s1 then if s2 then CompOpp (lexc e1 m1 e2 m2) else Lt
          else if s2 then Gt else lexc e1 m1 e2 m2).
Proof.
  unfold lexc. simpl.
  destruct s1, s2; try reflexivity; destruct (e1 ?= e2)%Z; reflexivity.
Qed.

Ltac sf_order :=
  unfold SFltb, SFeqb;
  repeat match goal with x : spec_float |- _ => destruct x as [[]|[]| |[] ? ?] end;
  rewrite ?SFcompare_finite; simpl; try congruence;
  repeat match goal with
  | |- context [lexc ?a ?b ?a ?b] => rewrite (lexc_refl a b)
  end; simpl; try congruence.

Ltac lexc_solve e1 m1 e2 m2 e3 m3 :=
  pose proof (lexc_chain e2 m2 e1 m1 e3 m3);
  pose proof (lexc_chain e1 m1 e2 m2 e3 m3);
  pose proof (lexc_chain e1 m1 e3 m3 e2 m2);
  pose proof (lexc_chain e1 m1 e2 m2 e1 m1);
  pose proof (lexc_chain e1 m1 e3 m3 e1 m1);
  rewrite lexc_refl in *;
  destruct (lexc e1 m1 e2 m2), (lexc e2 m2 e1 m1), (lexc e1 m1 e3 m3),
           (lexc e3 m3 e1 m1), (lexc e2 m2 e3 m3), (lexc e3 m3 e2 m2);
  simpl in *; congruence.

Lemma SFltb_irrefl a : SFltb a a = false.
Proof. sf_order. Qed.

Lemma SFltb_trans a b c : SFltb a b = true -> SFltb b c = true -> SFltb a c = true.
Proof.
  sf_order.
  all: match goal with
       | |- context [lexc ?e1 ?m1 ?e2 ?m2] =>
         match goal with
         | |- context [lexc e2 m2 ?e3 ?m3] => lexc_solve e1 m1 e2 m2 e3 m3
         end
       end.
Qed.

Lemma SFltb_neg_trans a b c :
  SFeqb a a = true -> SFltb b a = false -> SFltb b c = true -> SFltb a c = true.
Proof.
  sf_order.
  all: match goal with
       | |- context [lexc ?e1 ?m1 ?e2 ?m2] =>
         match goal with
         | |- context [lexc e1 m1 ?e3 ?m3] => lexc_solve e1 m1 e2 m2 e3 m3
         end
       end.
Qed.

Lemma SFltb_number a b : SFltb a b = true -> SFeqb b b = true.
Proof. sf_order. Qed.

Section FloatOrder.
Local Open Scope float_scope.
Implicit Types x y z : float.

Lemma ltb_irrefl x : (x <? x) = false.
Proof. rewrite FloatAxioms.ltb_spec. apply SFltb_irrefl. Qed.

Lemma ltb_trans x y z : (x <? y) = true -> (y <? z) = true -> (x <? z) = true.
Proof. rewrite !FloatAxioms.ltb_spec. apply SFltb_trans. Qed.

Lemma ltb_asym x y : (x <? y) = true -> (y <? x) = false.
Proof.
  intros Hxy. destruct (y <? x) eqn:Hyx; [|reflexivity].
  rewrite <- (ltb_irrefl x). symmetry. now apply (ltb_trans x y x).
Qed.

(** [y] does not exceed the number [x], and [y] is below [z]: so is [x]. *)
Lemma ltb_neg_trans x y z :
  (x =? x) = true -> (y <? x) = false -> (y <? z) = true -> (x <? z) = true.
Proof. rewrite !FloatAxioms.ltb_spec, FloatAxioms.eqb_spec. apply SFltb_neg_trans. Qed.

Lemma ltb_number x y : (x <? y) = true -> (y =? y) = true.
Proof. rewrite FloatAxioms.ltb_spec, FloatAxioms.eqb_spec. apply SFltb_number. Qed.
End FloatOrder.

(** ** Grouping by weight pair *)

Section AggregatorFacts.
Context {W : Type} `{EqDecision W}.
Implicit Types (d : @dict W) (k : W * W) (obs : list (@observation W)).

Lemma dict_get_append d k v k' :
  dict_get (dict_append d k v) k'
  = if decide (k' = k) then Some (default [] (dict_get d k) ++ [v])
    else dict_get d k'.
Proof.
  induction d as [|[k0 vs] d IH]; simpl.
  - destruct (decide (k' = k)); reflexivity.
  - destruct (decide (k = k0)) as [->|Hk]; simpl.
    + destruct (decide (k' = k0)); reflexivity.
    + rewrite IH. destruct (decide (k' = k0)) as [->|Hk'].
      * destruct (decide (k0 = k)); [congruence|reflexivity].
      * reflexivity.
Qed.

Lemma values_of_cons k (o : @observation W) obs :
  values_of k (o :: obs)
  = if decide (fst o = k) then snd o :: values_of k obs else values_of k obs.
Proof.
  unfold values_of. rewrite filter_cons.
  destruct (decide (fst o = k)); reflexivity.
Qed.

Lemma fold_dict_append_get obs d k :
  dict_get (fold_left (fun d o => dict_append d (fst o) (snd o)) obs d) k
  = match dict_get d k, values_of k obs with
    | None, [] => None
    | mvs, vs => Some (default [] mvs ++ vs)
    end.
Proof.
  revert d. induction obs as [|o obs IH]; intros d; simpl.
  - unfold values_of. simpl. destruct (dict_get d k); simpl; [|reflexivity].
    now rewrite app_nil_r.
  - rewrite IH, dict_get_append, values_of_cons.
    destruct (decide (k = fst o)) as [->|Hk].
    + rewrite decide_True by reflexivity. simpl.
      rewrite <- app_assoc. simpl.
      destruct (dict_get d (fst o)); reflexivity.
    + rewrite decide_False by congruence. reflexivity.
Qed.

Lemma accumulate_get obs k :
  dict_get (accumulate obs) k
  = match values_of k obs with
    | [] => None
    | vs => Some vs
    end.
Proof.
  unfold accumulate. rewrite fold_dict_append_get. simpl.
  destruct (values_of k obs); reflexivity.
Qed.

Lemma dict_append_keys d k v :
  map fst (dict_append d k v)
  = if decide (k ∈ map fst d) then map fst d else map fst d ++ [k].
Proof.
  induction d as [|[k0 vs] d IH].
  - destruct (decide (k ∈ map fst [])) as [Hin|Hin]; [|reflexivity].
    now apply not_elem_of_nil in Hin.
  - cbn [dict_append map fst].
    destruct (decide (k = k0)) as [->|Hk];
      destruct (decide (_ ∈ k0 :: map fst d)) as [Hin|Hin]; cbn [map fst].
    + reflexivity.
    + exfalso. apply Hin. constructor.
    + rewrite IH. apply elem_of_cons in Hin as [Heq|Hin]; [congruence|].
      now rewrite decide_True.
    + rewrite IH, decide_False; [reflexivity|].
      intros Hin'. apply Hin. now constructor.
Qed.

Lemma accumulate_NoDup obs : NoDup (map fst (accumulate obs)).
Proof.
  unfold accumulate.
  assert (G : forall d, NoDup (map fst d) ->
    NoDup (map fst (fold_left (fun d o => dict_append d (fst o) (snd o)) obs d))).
  { induction obs as [|o obs IH]; intros d Hd; simpl; [exact Hd|].
    apply IH. rewrite dict_append_keys.
    destruct (decide (fst o ∈ map fst d)) as [Hin|Hin]; [exact Hd|].
    apply NoDup_app. split; [exact Hd|]. split.
    - intros x Hx Hx'. apply list_elem_of_singleton in Hx'. now subst.
    - apply NoDup_singleton. }
  apply G. constructor.
Qed.

Lemma dict_get_elem d k vs :
  NoDup (map fst d) -> (k, vs) ∈ d -> dict_get d k = Some vs.
Proof.
  induction d as [|[k0 vs0] d IH]; simpl; intros Hnd Hin.
  - now apply not_elem_of_nil in Hin.
  - apply NoDup_cons in Hnd as [Hk0 Hnd].
    apply elem_of_cons in Hin as [Heq|Hin].
    + injection Heq as -> ->. now rewrite decide_True.
    + destruct (decide (k = k0)) as [->|Hk]; [|now apply IH].
      exfalso. apply Hk0. apply (list_elem_of_fmap_2 fst) in Hin. exact Hin.
Qed.

(** Every entry of the dictionary holds all the values recorded for its
    key, in the order they were collected, and holds at least one. *)
Lemma accumulate_elem obs k vs :
  (k, vs) ∈ accumulate obs -> vs = values_of k obs /\ vs <> [].
Proof.
  intros Hin.
  pose proof (dict_get_elem _ _ _ (accumulate_NoDup obs) Hin) as Hget.
  rewrite accumulate_get in Hget.
  destruct (values_of k obs) as [|v vs']; [discriminate|].
  injection Hget as <-. split; [reflexivity|discriminate].
Qed.

Lemma accumulate_nonempty obs : obs <> [] -> accumulate obs <> [].
Proof.
  destruct obs as [|o obs]; [congruence|]. intros _ Hnil.
  pose proof (accumulate_get (o :: obs) (fst o)) as Hget.
  rewrite Hnil, values_of_cons, decide_True in Hget by reflexivity.
  discriminate.
Qed.
End AggregatorFacts.

(** ** The keys of the grouping map *)

Lemma filter_all {A : Type} (P : A -> Prop) `{forall x, Decision (P x)} (l : list A) :
  Forall P l -> filter P l = l.
Proof.
  induction 1 as [|x l Hx _ IH]; [reflexivity|].
  now rewrite filter_cons_True, IH.
Qed.

Lemma filter_none {A : Type} (P : A -> Prop) `{forall x, Decision (P x)} (l : list A) :
  Forall (fun x => ~ P x) l -> filter P l = [].
Proof.
  induction 1 as [|x l Hx _ IH]; [reflexivity|].
  now rewrite filter_cons_False, IH.
Qed.

Lemma first_seen_elem {A : Type} `{EqDecision A} (l : list A) (x : A) :
  x ∈ first_seen l <-> x ∈ l.
Proof.
  induction l as [|y l IH]; simpl; [reflexivity|].
  rewrite !elem_of_cons, list_elem_of_filter, IH.
  destruct (decide (x = y)); tauto.
Qed.

Lemma first_seen_NoDup {A : Type} `{EqDecision A} (l : list A) : NoDup (first_seen l).
Proof.
  induction l as [|y l IH]; simpl; constructor.
  - rewrite list_elem_of_filter. tauto.
  - now apply NoDup_filter.
Qed.

Lemma first_seen_id {A : Type} `{EqDecision A} (l : list A) :
  NoDup l -> first_seen l = l.
Proof.
  induction 1 as [|x l Hx _ IH]; simpl; [reflexivity|].
  rewrite IH. f_equal. apply filter_all, Forall_forall.
  intros y Hy ->. contradiction.
Qed.

Lemma first_seen_app {A : Type} `{EqDecision A} (l1 l2 : list A) :
  first_seen (l1 ++ l2) = first_seen l1 ++ filter (fun y => y ∉ l1) (first_seen l2).
Proof.
  induction l1 as [|x l1 IH]; simpl.
  - symmetry. apply filter_all, Forall_forall. intros y _. apply not_elem_of_nil.
  - f_equal. rewrite IH, filter_app, list_filter_filter. f_equal.
    apply list_filter_iff. intros y. rewrite not_elem_of_cons. tauto.
Qed.

Section GroupingFacts.
Context {W : Type} `{EqDecision W}.
Implicit Types (d : @dict W) (k : W * W) (obs : list (@observation W)).

Lemma fold_dict_append_keys obs d :
  map fst (fold_left (fun d o => dict_append d (fst o) (snd o)) obs d)
  = map fst d ++ filter (fun k => k ∉ map fst d) (first_seen (map fst obs)).
Proof.
  revert d. induction obs as [|o obs IH]; intros d; simpl.
  - now rewrite app_nil_r.
  - rewrite IH, dict_append_keys.
    destruct (decide (fst o ∈ map fst d)) as [Hin|Hin].
    + rewrite filter_cons_False by tauto.
      rewrite list_filter_filter_l; [reflexivity|].
      intros x Hx ->. contradiction.
    + rewrite filter_cons_True by assumption.
      rewrite <- app_assoc. simpl. do 2 f_equal.
      rewrite list_filter_filter. apply list_filter_iff.
      intros x. rewrite elem_of_app, list_elem_of_singleton. tauto.
Qed.

Lemma dict_append_values d k v :
  concat (map snd (dict_append d k v)) ≡ₚ concat (map snd d) ++ [v].
Proof.
  induction d as [|[k0 vs] d IH]; simpl; [reflexivity|].
  destruct (decide (k = k0)); simpl.
  - rewrite <- !app_assoc. apply Permutation_app_head. apply Permutation_app_comm.
  - rewrite IH. now rewrite app_assoc.
Qed.

Lemma values_of_app k obs obs' :
  values_of k (obs ++ obs') = values_of k obs ++ values_of k obs'.
Proof. unfold values_of. now rewrite filter_app, map_app. Qed.

Lemma values_of_single k (track : list (@observation W)) :
  NoDup (map fst track) -> k ∈ map fst track -> length (values_of k track) = 1%nat.
Proof.
  induction track as [|o track IH]; simpl; intros Hnd Hin.
  - now apply not_elem_of_nil in Hin.
  - apply NoDup_cons in Hnd as [Ho Hnd]. rewrite values_of_cons.
    destruct (decide (fst o = k)) as [<-|Hk].
    + simpl. f_equal. unfold values_of. rewrite filter_none; [reflexivity|].
      apply Forall_forall. intros o' Ho' Heq. apply Ho.
      rewrite <- Heq. now apply list_elem_of_fmap_2.
    + apply IH; [exact Hnd|].
      apply elem_of_cons in Hin as [Heq|Hin]; [congruence|exact Hin].
Qed.
End GroupingFacts.

Lemma accumulate_keys {W : Type} `{EqDecision W} (obs : list (@observation W)) :
  map fst (accumulate obs) = first_seen (map fst obs).
Proof.
  unfold accumulate. rewrite fold_dict_append_keys. simpl.
  apply filter_all, Forall_forall. intros k _. apply not_elem_of_nil.
Qed.

(** A map whose entries hold [val k] at every key [k] is given by its keys. *)
Lemma dict_entries {W : Type} (d : @dict W) (val : W * W -> list float) :
  (forall k vs, (k, vs) ∈ d -> vs = val k) ->
  d = map (fun k => (k, val k)) (map fst d).
Proof.
  induction d as [|[k vs] d IH]; intros Hd; simpl; [reflexivity|].
  rewrite <- (Hd k vs) by constructor. f_equal.
  apply IH. intros k' vs' Hin. apply Hd. now constructor.
Qed.

(** The grouping map, entry by entry: the observed pairs in the order of
    their first appearance, each with the values recorded for it. *)
Lemma accumulate_entries {W : Type} `{EqDecision W} (obs : list (@observation W)) :
  accumulate obs = map (fun k => (k, values_of k obs)) (first_seen (map fst obs)).
Proof.
  rewrite <- accumulate_keys. apply dict_entries.
  intros k vs Hin. now apply accumulate_elem in Hin.
Qed.

Lemma accumulate_observed {W : Type} `{EqDecision W} (obs : list (@observation W))
    (k : W * W) :
  k ∈ map fst obs -> (k, values_of k obs) ∈ accumulate obs.
Proof.
  intros Hk. rewrite accumulate_entries.
  apply (list_elem_of_fmap_2 (fun k => (k, values_of k obs))).
  now apply first_seen_elem.
Qed.

Lemma accumulate_key_observed {W : Type} `{EqDecision W} (obs : list (@observation W))
    (k : W * W) (vs : list float) :
  (k, vs) ∈ accumulate obs -> k ∈ map fst obs /\ vs = values_of k obs.
Proof.
  intros Hin. split; [|now apply accumulate_elem in Hin].
  apply first_seen_elem. rewrite <- accumulate_keys.
  exact (list_elem_of_fmap_2 fst _ _ Hin).
Qed.

Ltac float_discriminate H :=
  match type of H with
  | ?a = ?b =>
      apply (f_equal (fun x => PrimFloat.eqb x b)) in H; vm_compute in H; discriminate H
  end.

(** ** Selecting the best pair *)

Section SelectionFacts.
Context {W : Type} `{EqDecision W}.
Implicit Types (d : @dict W) (k : W * W).
Local Open Scope float_scope.

Lemma select_best_snoc d item best :
  select_best (d ++ [item]) best = select_step (select_best d best) item.
Proof. unfold select_best. now rewrite fold_left_app. Qed.

(** The loop invariant: after the items of a non-empty [d] whose means
    are all above [-inf], the best pair is an entry of [d] with its mean,
    every earlier entry has a strictly smaller mean, and no entry has a
    greater one. *)
Lemma select_best_first_maximum (zero : W) d :
  d <> [] ->
  (forall k vs, (k, vs) ∈ d -> (neg_infinity <? average vs) = true) ->
  exists pre vs post,
    d = pre ++ (snd (select_best d (neg_infinity, (zero, zero))), vs) :: post
    /\ fst (select_best d (neg_infinity, (zero, zero))) = average vs
    /\ (forall k' vs', (k', vs') ∈ pre ->
          (average vs' <? fst (select_best d (neg_infinity, (zero, zero)))) = true)
    /\ (forall k' vs', (k', vs') ∈ d ->
          (fst (select_best d (neg_infinity, (zero, zero))) <? average vs') = false).
Proof.
  induction d as [|[kx vx] d IH] using rev_ind; [congruence|].
  intros _ Hmeans. rewrite select_best_snoc.
  assert (Hx : (neg_infinity <? average vx) = true).
  { apply (Hmeans kx). apply elem_of_app. right. constructor. }
  assert (Hcase : d = [] \/ d <> []) by (destruct d; [left|right]; congruence).
  destruct Hcase as [->|Hd0].
  - simpl. rewrite Hx. simpl.
    exists [], vx, []. split; [reflexivity|]. split; [reflexivity|]. split.
    + intros k' vs' Hin. now apply not_elem_of_nil in Hin.
    + intros k' vs' Hin. apply list_elem_of_singleton in Hin.
      injection Hin as -> ->. apply ltb_irrefl.
  - destruct IH as (pre & vs & post & Hd & Hbest & Hpre & Hall).
    { exact Hd0. }
    { intros k vs Hin. apply (Hmeans k). apply elem_of_app. now left. }
    destruct (select_best d (neg_infinity, (zero, zero))) as [best_sdr best_weights].
    simpl in Hd, Hbest, Hpre, Hall. simpl.
    destruct (best_sdr <? average vx) eqn:Hlt; simpl.
    + exists d, vx, []. split; [reflexivity|]. split; [reflexivity|]. split.
      * intros k' vs' Hin.
        apply (ltb_neg_trans _ best_sdr); [|now apply (Hall k')|exact Hlt].
        apply (ltb_number neg_infinity), (Hmeans k'), elem_of_app. now left.
      * intros k' vs' Hin. apply elem_of_app in Hin as [Hin|Hin].
        -- apply ltb_asym.
           apply (ltb_neg_trans _ best_sdr); [|now apply (Hall k')|exact Hlt].
           apply (ltb_number neg_infinity), (Hmeans k'), elem_of_app. now left.
        -- apply list_elem_of_singleton in Hin. injection Hin as -> ->.
           apply ltb_irrefl.
    + exists pre, vs, (post ++ [(kx, vx)]). split.
      { rewrite Hd at 1. now rewrite <- app_assoc. }
      split; [exact Hbest|]. split; [exact Hpre|].
      intros k' vs' Hin. apply elem_of_app in Hin as [Hin|Hin].
      * now apply (Hall k').
      * apply list_elem_of_singleton in Hin. now injection Hin as -> ->.
Qed.
End SelectionFacts.

(** C6, as the code has it.  For a non-empty collection of observations
    in which the mean of every observed pair is above [-inf]: the grouping
    map holds the observed pairs, in the order of their first appearance,
    each with exactly the values recorded for it; the selected pair is one
    of them; the reported best value is the arithmetic mean [sum / len] of
    its values; no observed pair has a greater mean; and every pair that
    comes earlier in the map's iteration order has a strictly smaller mean,
    so that among pairs of equal maximal mean the first is selected. *)
Theorem aggregate_selects_first_maximal_mean {W : Type} `{EqDecision W}
    (zero : W) (all_sdr_values : list (@observation W)) :
  all_sdr_values <> [] ->
  (forall k, k ∈ map fst all_sdr_values ->
     (neg_infinity <? average (values_of k all_sdr_values))%float = true) ->
  let best_sdr := fst (aggregate zero all_sdr_values) in
  let best_weights := snd (aggregate zero all_sdr_values) in
  accumulate all_sdr_values
  = map (fun k => (k, values_of k all_sdr_values)) (first_seen (map fst all_sdr_values))
  /\ exists pre post,
       first_seen (map fst all_sdr_values) = pre ++ best_weights :: post
       /\ best_sdr
          = (fold_left PrimFloat.add (values_of best_weights all_sdr_values) 0
             / float_of_Z (Z.of_nat (length (values_of best_weights all_sdr_values))))%float
       /\ (forall k, k ∈ map fst all_sdr_values ->
             (best_sdr <? average (values_of k all_sdr_values))%float = false)
       /\ (forall k, k ∈ pre ->
             (average (values_of k all_sdr_values) <? best_sdr)%float = true).
Proof.
  intros Hne Hmeans. cbv zeta. split; [apply accumulate_entries|].
  destruct (select_best_first_maximum zero (accumulate all_sdr_values))
    as (pre & vs & post & Hd & Hbest & Hpre & Hall).
  { now apply accumulate_nonempty. }
  { intros k vs Hin. apply accumulate_key_observed in Hin as [Hk ->]. now apply Hmeans. }
  unfold aggregate.
  destruct (select_best (accumulate all_sdr_values) (neg_infinity, (zero, zero)))
    as [best_sdr best_weights].
  cbn [fst snd] in *.
  assert (Hvs : vs = values_of best_weights all_sdr_values).
  { apply (accumulate_elem all_sdr_values). rewrite Hd.
    apply elem_of_app. right. constructor. }
  exists (map fst pre), (map fst post). split; [|split; [|split]].
  - rewrite <- accumulate_keys, Hd, map_app. reflexivity.
  - rewrite Hbest, Hvs. reflexivity.
  - intros k Hk. apply (Hall k). now apply accumulate_observed.
  - intros k Hk. apply list_elem_of_fmap in Hk as ([k' vs'] & -> & Hin). cbn [fst].
    assert (Hvs' : vs' = values_of k' all_sdr_values).
    { apply (accumulate_elem all_sdr_values). rewrite Hd.
      apply elem_of_app. now left. }
    rewrite <- Hvs'. exact (Hpre k' vs' Hin).
Qed.

Lemma two_track_dict :
  accumulate two_track_observations
  = [ (3, 7, [9; 4]); (4, 6, [8; 8]); (5, 5, [5; 9]); (6, 4, [8.5; 7.5]) ]%float.
Proof. vm_compute. reflexivity. Qed.

Lemma aggregate_selects_first_maximal_mean_witness :
  two_track_observations <> []
  /\ (forall k, k ∈ map fst two_track_observations ->
        (neg_infinity <? average (values_of k two_track_observations))%float = true)
  /\ let best_sdr := fst (aggregate 0%float two_track_observations) in
     let best_weights := snd (aggregate 0%float two_track_observations) in
     accumulate two_track_observations
     = map (fun k => (k, values_of k two_track_observations))
           (first_seen (map fst two_track_observations))
     /\ exists pre post,
          first_seen (map fst two_track_observations) = pre ++ best_weights :: post
          /\ best_sdr
             = (fold_left PrimFloat.add (values_of best_weights two_track_observations) 0
                / float_of_Z
                    (Z.of_nat (length (values_of best_weights two_track_observations))))%float
          /\ (forall k, k ∈ map fst two_track_observations ->
                (best_sdr <? average (values_of k two_track_observations))%float = false)
          /\ (forall k, k ∈ pre ->
                (average (values_of k two_track_observations) <? best_sdr)%float = true).
Proof.
  assert (Hne : two_track_observations <> []) by discriminate.
  assert (Hmeans : forall k, k ∈ map fst two_track_observations ->
            (neg_infinity <? average (values_of k two_track_observations))%float = true).
  { intros k Hin. cbn [two_track_observations map fst] in Hin.
    repeat (apply elem_of_cons in Hin as [->|Hin]; [vm_compute; reflexivity|]).
    now apply not_elem_of_nil in Hin. }
  split; [exact Hne|]. split; [exact Hmeans|].
  exact (aggregate_selects_first_maximal_mean 0%float two_track_observations Hne Hmeans).
Defined.

(** C6, as stated, fails: a collection can be non-empty without a pair
    being selected.  The one observation of the pair (0, 10) has the value
    [-inf]; its mean [-inf] is not above the initial [-inf], and the search
    reports the pair (0, 0), of which there is no observation. *)
Lemma aggregate_minus_infinity_selects_no_pair :
  minus_infinity_observation <> []
  /\ accumulate minus_infinity_observation = [((0, 10), [neg_infinity])]%float
  /\ average [neg_infinity] = neg_infinity
  /\ aggregate 0%float minus_infinity_observation = (neg_infinity, (0, 0))%float
  /\ (0, 0)%float ∉ map fst minus_infinity_observation.
Proof.
  split; [discriminate|].
  split; [vm_compute; reflexivity|].
  split; [vm_compute; reflexivity|].
  split; [vm_compute; reflexivity|].
  intros Hin. cbn [minus_infinity_observation map fst] in Hin.
  apply list_elem_of_singleton in Hin.
  apply (f_equal snd) in Hin. cbn [snd] in Hin. float_discriminate Hin.
Qed.

(** On the two-track data the search selects (4, 6), the pair of the
    highest mean (8, tied with the later (6, 4)); neither track's own best
    pair wins. *)
Example two_track_best :
  aggregate 0%float two_track_observations = (8, (4, 6))%float.
Proof. vm_compute. reflexivity. Qed.

(** C10.  With no track there is no observation: the search raises
    nothing and reports the best value [-inf] with the pair [(0, 0)], which
    is not a pair of the grid. *)
Theorem empty_track_set_reports_sentinel :
  main_search_float [] = Ok (neg_infinity, (0, 0))%float
  /\ ((0, 0)%float ∉ weight_combinations)
  /\ Forall (fun w => ((fst w =? 0) && (snd w =? 0))%float = false) weight_combinations.
Proof.
  split; [reflexivity|]. rewrite weight_combinations_value. split.
  - intros Hin.
    repeat (apply elem_of_cons in Hin as [Hin|Hin]);
      try (pose proof (f_equal fst Hin) as H1; pose proof (f_equal snd Hin) as H2;
           simpl in H1, H2; first [float_discriminate H1 | float_discriminate H2]).
    now apply not_elem_of_nil in Hin.
  - repeat constructor.
Qed.

(** ** Order of collection *)

Lemma fold_Rplus_Permutation (l l' : list R) (z : R) :
  l ≡ₚ l' -> fold_left Rplus l z = fold_left Rplus l' z.
Proof.
  intros Hp. revert z.
  induction Hp as [|x l l' _ IH|x y l|l l' l'' _ IH1 _ IH2]; intros z; simpl.
  - reflexivity.
  - apply IH.
  - f_equal. ring.
  - now rewrite IH1.
Qed.

(** C5, as the code has it.  Collecting one multiset of observations in
    two orders gives every weight pair the same multiset of values: the
    pair is a key of both maps or of neither, its two value lists are
    permutations of each other, and their mean in exact arithmetic is the
    same. *)
Theorem grouping_is_order_independent {W : Type} `{EqDecision W}
    (obs obs' : list (@observation W)) :
  obs ≡ₚ obs' ->
  forall k : W * W,
    match dict_get (accumulate obs) k, dict_get (accumulate obs') k with
    | Some vs, Some vs' =>
        vs ≡ₚ vs' /\ length vs = length vs'
        /\ forall val : float -> R, exact_average val vs = exact_average val vs'
    | None, None => True
    | _, _ => False
    end.
Proof.
  intros Hp k. rewrite !accumulate_get.
  assert (Hv : values_of k obs ≡ₚ values_of k obs').
  { unfold values_of. now rewrite Hp. }
  destruct (values_of k obs) as [|v vs], (values_of k obs') as [|v' vs'].
  - exact I.
  - now apply Permutation_nil_cons in Hv.
  - symmetry in Hv. now apply Permutation_nil_cons in Hv.
  - split; [exact Hv|]. split; [now rewrite Hv|].
    intros val. unfold exact_average.
    rewrite (fold_Rplus_Permutation (map val (v :: vs)) (map val (v' :: vs')) 0).
    + now rewrite Hv.
    + now apply fmap_Permutation.
Qed.

Lemma grouping_is_order_independent_witness :
  three_values ≡ₚ three_values_reversed
  /\ match dict_get (accumulate three_values) (5, 5)%float,
           dict_get (accumulate three_values_reversed) (5, 5)%float with
     | Some vs, Some vs' =>
         vs ≡ₚ vs' /\ length vs = length vs'
         /\ forall val : float -> R, exact_average val vs = exact_average val vs'
     | None, None => True
     | _, _ => False
     end.
Proof.
  assert (Hp : three_values ≡ₚ three_values_reversed).
  { change three_values_reversed with (rev three_values). apply Permutation_rev. }
  split; [exact Hp|].
  exact (grouping_is_order_independent three_values three_values_reversed Hp (5, 5)%float).
Defined.

(** C5, as stated, fails at float64: the same three observations of one
    pair, collected in two orders, average to two different doubles. *)
Lemma average_depends_on_order :
  three_values ≡ₚ three_values_reversed
  /\ averages (accumulate three_values) = [(5, 5, 0.20000000000000004)]%float
  /\ averages (accumulate three_values_reversed) = [(5, 5, 0.19999999999999998)]%float
  /\ averages (accumulate three_values) <> averages (accumulate three_values_reversed).
Proof.
  split.
  { change three_values_reversed with (rev three_values). apply Permutation_rev. }
  split; [vm_compute; reflexivity|].
  split; [vm_compute; reflexivity|].
  intros E. vm_compute in E.
  apply (f_equal (fun l => match l with [(_, a)] => a | _ => 0%float end)) in E.
  float_discriminate E.
Qed.

(** The rounding can decide the search: next to a pair of mean 0.2,
    the three values win in one order and lose in the other. *)
Example best_pair_depends_on_order :
  aggregate 0%float (three_values ++ [(4, 6, 0.2)]%float) = (0.20000000000000004, (5, 5))%float
  /\ aggregate 0%float (three_values_reversed ++ [(4, 6, 0.2)]%float) = (0.2, (4, 6))%float.
Proof. split; vm_compute; reflexivity. Qed.

(** ** The track evaluator *)

Section TrackFacts.
Context {F : Type} `{Arith F}.
Variable log10 : F -> F.
Context {TF SOS : Type}.
Variable butter : Z -> F -> btype -> result TF.
Variable tf2sos : TF -> result SOS.
Variable sosfiltfilt : SOS -> array2 F -> result (array2 F).

Lemma index_Ok {A : Type} (l : list A) (i : nat) (x : A) :
  index l i = Ok x <-> l !! i = Some x.
Proof. unfold index. destruct (l !! i); split; congruence. Qed.

(** The two calls of [lr_filter] in [process_track] are the order-3
    Butterworth filters at 10000 Hz over the Nyquist frequency. *)
Lemma lr_filter_lowpass (audio : array2 F) (sr : Z) :
  lr_filter butter tf2sos sosfiltfilt audio 10000%Z lowpass default_order sr
  = lowpass_10k butter tf2sos sosfiltfilt sr audio.
Proof. reflexivity. Qed.

Lemma lr_filter_highpass (audio : array2 F) (sr : Z) :
  lr_filter butter tf2sos sosfiltfilt audio 10000%Z highpass default_order sr
  = highpass_10k butter tf2sos sosfiltfilt sr audio.
Proof. reflexivity. Qed.

(** One iteration of the loop, with the candidate of the specification
    in place of the inlined filter calls. *)
Lemma evaluate_pair_candidate (original_vocals : array2 F) (sr1 : Z)
    (model_signals : list (array2 F)) (w1 w2 : F) :
  evaluate_pair log10 butter tf2sos sosfiltfilt original_vocals sr1 model_signals (w1, w2)
  = (A ← index model_signals 0;
     B ← index model_signals 1;
     candidate ← candidate_spec butter tf2sos sosfiltfilt sr1 w1 w2 A B;
     sdr_values ← get_sdr log10 (transpose original_vocals) candidate;
     s ← index sdr_values 0;
     Ok (w1, w2, s)).
Proof.
  unfold evaluate_pair, candidate_spec, lr_filter, lowpass_10k, highpass_10k, weights_sum.
  change (default_order / 2)%Z with 3%Z.
  destruct (index model_signals 0) as [A|]; [|reflexivity].
  destruct (index model_signals 1) as [B|]; [|reflexivity].
  cbn [mbind result_bind].
  destruct (ew2 f_add _ _) as [blend|]; [|reflexivity].
  cbn [mbind result_bind].
  destruct (decide (sr1 = 0%Z)); [reflexivity|].
  destruct (butter 3 _ lowpass) as [ba|]; [|reflexivity].
  cbn [mbind result_bind].
  destruct (tf2sos ba) as [sos|]; [|reflexivity].
  cbn [mbind result_bind].
  destruct (sosfiltfilt sos _) as [low|]; [|reflexivity].
  cbn [mbind result_bind].
  destruct (butter 3 _ highpass) as [ba'|]; [|reflexivity].
  cbn [mbind result_bind].
  destruct (tf2sos ba') as [sos'|]; [|reflexivity].
  cbn [mbind result_bind].
  destruct (sosfiltfilt sos' B) as [high|]; reflexivity.
Qed.

(** One iteration of the loop succeeds exactly when the candidate of the
    specification can be built from the first two model signals and
    scored. *)
Lemma evaluate_pair_Ok (original_vocals : array2 F) (sr1 : Z)
    (model_signals : list (array2 F)) (w : F * F) (o : F * F * F) :
  evaluate_pair log10 butter tf2sos sosfiltfilt original_vocals sr1 model_signals w = Ok o
  <-> exists A B candidate sdr_values s,
        model_signals !! 0%nat = Some A
        /\ model_signals !! 1%nat = Some B
        /\ candidate_spec butter tf2sos sosfiltfilt sr1 (fst w) (snd w) A B = Ok candidate
        /\ get_sdr log10 (transpose original_vocals) candidate = Ok sdr_values
        /\ sdr_values !! 0%nat = Some s
        /\ o = (fst w, snd w, s).
Proof.
  destruct w as [w1 w2]. rewrite evaluate_pair_candidate. simpl fst; simpl snd.
  split.
  - intros E.
    destruct (index model_signals 0) as [A|] eqn:EA; [|discriminate].
    destruct (index model_signals 1) as [B|] eqn:EB; [|discriminate].
    apply index_Ok in EA, EB. cbn [mbind result_bind] in E.
    destruct (candidate_spec _ _ _ _ _ _ _ _) as [candidate|] eqn:Ec; [|discriminate].
    cbn [mbind result_bind] in E.
    destruct (get_sdr _ _ _) as [sdr_values|] eqn:Es; [|discriminate].
    cbn [mbind result_bind] in E.
    destruct (index sdr_values 0) as [s|] eqn:Ei; [|discriminate].
    apply index_Ok in Ei. injection E as <-.
    exists A, B, candidate, sdr_values, s. repeat split; assumption.
  - intros (A & B & candidate & sdr_values & s & EA & EB & Ec & Es & Ei & ->).
    apply index_Ok in EA, EB, Ei. rewrite EA, EB. cbn [mbind result_bind].
    rewrite Ec. cbn [mbind result_bind]. rewrite Es. cbn [mbind result_bind].
    now rewrite Ei.
Qed.
End TrackFacts.


(** ** The sample-rate check *)

Lemma sorted_set_elem (srs : list Z) (x : Z) : x ∈ sorted_set srs <-> x ∈ srs.
Proof.
  unfold sorted_set. rewrite merge_sort_Permutation. apply elem_of_remove_dups.
Qed.

(** [sorted(set(srs))] is strictly ascending: sorted, without repeats. *)
Lemma sorted_set_ascending (srs : list Z) : StronglySorted Z.lt (sorted_set srs).
Proof.
  unfold sorted_set.
  assert (Hnd : NoDup (merge_sort Z.le (remove_dups srs))).
  { rewrite merge_sort_Permutation. apply NoDup_remove_dups. }
  pose proof (StronglySorted_merge_sort Z.le (remove_dups srs)) as Hs.
  induction Hs as [|x l _ IH Hx]; [constructor|].
  apply NoDup_cons in Hnd as [Hxl Hnd]. constructor; [now apply IH|].
  rewrite Forall_forall in Hx |- *. intros y Hy.
  pose proof (Hx y Hy). assert (x <> y) by (intros ->; contradiction). lia.
Qed.

(** The two branches of the check, once the reference mix is formed. *)
Lemma process_track_rate_check {F : Type} `{Arith F} (log10 : F -> F)
    {TF SOS : Type} (butter : Z -> F -> btype -> result TF)
    (tf2sos : TF -> result SOS) (sosfiltfilt : SOS -> array2 F -> result (array2 F))
    (original_vocals original_other mix : array2 F) (sr1 sr2 : Z)
    (model_files : list (array2 F * Z)) (weight_combinations : list (F * F)) :
  ew2 f_add (transpose original_vocals) (transpose original_other) = Ok mix ->
  let srs := sr1 :: sr2 :: map snd model_files in
  ((1 < length (remove_dups srs))%nat ->
     process_track log10 butter tf2sos sosfiltfilt
       (original_vocals, sr1) (original_other, sr2) model_files weight_combinations
     = Raise (ValueError (sample_rate_message srs)))
  /\ ((length (remove_dups srs) <= 1)%nat ->
     process_track log10 butter tf2sos sosfiltfilt
       (original_vocals, sr1) (original_other, sr2) model_files weight_combinations
     = for_each (evaluate_pair log10 butter tf2sos sosfiltfilt original_vocals sr1
                   (map (fun mf => transpose (fst mf)) model_files))
                weight_combinations).
Proof.
  intros Hmix srs. unfold process_track. rewrite Hmix. cbn [mbind result_bind app].
  fold srs. destruct (decide (1 < length (remove_dups srs))%nat); split; intros; try lia; reflexivity.
Qed.

Example sample_rate_message_example :
  sample_rate_message [44100; 48000; 44100; 44100]%Z
  = "Sample rates are not the same across all files.
Found sample rates: 44100, 48000.
Please ensure all files have the same sample rate, such as 44100 or 48000.".
Proof. vm_compute. reflexivity. Qed.

(** C4 fails on the code.  The two original stems of this track have
    different sample rates (44100 and 48000) and, as such files do,
    different numbers of frames.  [process_track] forms the reference mix
    before it compares the rates, so it raises numpy's broadcasting error,
    not the error that lists the rates 44100 and 48000. *)
Theorem process_track_mix_precedes_rate_check (log10 : float -> float)
    {TF SOS : Type} (butter : Z -> float -> btype -> result TF)
    (tf2sos : TF -> result SOS)
    (sosfiltfilt : SOS -> array2 float -> result (array2 float)) :
  let srs := (snd mismatched_vocals :: snd mismatched_other :: map snd mismatched_models) in
  sorted_set srs = [44100; 48000]%Z
  /\ process_track log10 butter tf2sos sosfiltfilt
       mismatched_vocals mismatched_other mismatched_models weight_combinations
     = Raise broadcast_error
  /\ Raise broadcast_error
     <> (Raise (ValueError (sample_rate_message srs)) : result (list (float * float * float))).
Proof.
  split; [vm_compute; reflexivity|].
  split; [reflexivity|].
  vm_compute. discriminate.
Qed.

(** X2.  The rates listed in the message are the distinct rates found, each
    once, in strictly ascending order. *)
Theorem sample_rates_listed_ascending (srs : list Z) :
  StronglySorted Z.lt (sorted_set srs)
  /\ forall x : Z, x ∈ sorted_set srs <-> x ∈ srs.
Proof.
  split; [apply sorted_set_ascending|]. intros x. apply sorted_set_elem.
Qed.

(** * Further properties *)

(** ** The grouping map *)

(** X3.  The grouping map lists every weight pair once, in the order in
    which the pairs first appear among the observations: this is the order
    in which the selection loop meets them. *)
Theorem accumulate_keys_first_seen {W : Type} `{EqDecision W}
    (all_sdr_values : list (@observation W)) :
  map fst (accumulate all_sdr_values) = first_seen (map fst all_sdr_values)
  /\ NoDup (map fst (accumulate all_sdr_values))
  /\ forall k, k ∈ map fst (accumulate all_sdr_values) <-> k ∈ map fst all_sdr_values.
Proof.
  rewrite accumulate_keys. split; [reflexivity|]. split.
  - apply first_seen_NoDup.
  - intros k. apply first_seen_elem.
Qed.

(** X4.  Grouping neither drops nor repeats a value: the value lists of the
    map, put together, are a rearrangement of the collected sdr values. *)
Theorem accumulate_conserves_values {W : Type} `{EqDecision W}
    (all_sdr_values : list (@observation W)) :
  concat (map snd (accumulate all_sdr_values)) ≡ₚ map snd all_sdr_values.
Proof.
  unfold accumulate.
  assert (G : forall d : @dict W,
    concat (map snd (fold_left (fun d o => dict_append d (fst o) (snd o)) all_sdr_values d))
    ≡ₚ concat (map snd d) ++ map snd all_sdr_values).
  { induction all_sdr_values as [|o obs IH]; intros d; simpl.
    - now rewrite app_nil_r.
    - rewrite IH, dict_append_values, <- app_assoc. reflexivity. }
  apply G.
Qed.

(** X5.  When every track reports one observation per pair of a
    duplicate-free grid, in grid order, as [process_track] does, the
    grouping map is the grid in grid order, each pair with exactly the
    values recorded for it, one per track; and the selection loop goes
    through the pairs of the grid in grid order. *)
Theorem grid_order_is_iteration_order {W : Type} `{EqDecision W} (zero : W)
    (grid : list (W * W)) (tracks : list (list (@observation W))) :
  NoDup grid ->
  tracks <> [] ->
  Forall (fun track => map fst track = grid) tracks ->
  accumulate (concat tracks)
  = map (fun k => (k, values_of k (concat tracks))) grid
  /\ Forall (fun item => length (snd item) = length tracks) (accumulate (concat tracks))
  /\ aggregate zero (concat tracks)
     = fold_left (fun best k => select_step best (k, values_of k (concat tracks)))
                 grid (neg_infinity, (zero, zero)).
Proof.
  intros Hnd Hne Htracks.
  assert (Hkeys : first_seen (map fst (concat tracks)) = grid).
  { destruct tracks as [|track rest]; [congruence|].
    apply Forall_cons in Htracks as [Ht Hrest].
    cbn [concat]. rewrite map_app, first_seen_app. unfold observation in *.
    rewrite Ht, (first_seen_id grid Hnd).
    rewrite filter_none; [apply app_nil_r|].
    apply Forall_forall. intros k Hk Hnot. apply Hnot.
    rewrite first_seen_elem in Hk. clear -Hk Hrest.
    induction Hrest as [|t ts Ht' _ IH]; cbn [concat] in Hk.
    + now apply not_elem_of_nil in Hk.
    + rewrite map_app in Hk. apply elem_of_app in Hk as [Hk|Hk].
      * now rewrite Ht' in Hk.
      * now apply IH. }
  assert (Hentries : accumulate (concat tracks)
                     = map (fun k => (k, values_of k (concat tracks))) grid).
  { now rewrite accumulate_entries, Hkeys. }
  split; [exact Hentries|]. split.
  - rewrite Hentries. apply Forall_fmap, Forall_forall. intros k Hk.
    unfold compose. cbn [snd]. clear Hne Hkeys Hentries.
    induction Htracks as [|track rest Ht _ IH]; cbn [concat length]; [reflexivity|].
    rewrite values_of_app, length_app, IH.
    rewrite (values_of_single k track); [reflexivity| |];
      unfold observation in *; now rewrite Ht.
  - unfold aggregate, select_best. rewrite Hentries.
    generalize (neg_infinity, (zero, zero)). clear.
    induction grid as [|k grid IH]; intros best; [reflexivity|]. cbn [map fold_left].
    apply IH.
Qed.

Lemma grid_order_is_iteration_order_witness :
  NoDup weight_combinations
  /\ [map (fun w => (w, 1%float)) weight_combinations;
      map (fun w => (w, 2%float)) weight_combinations] <> []
  /\ Forall (fun track : list (@observation float) => map fst track = weight_combinations)
        [map (fun w => (w, 1%float)) weight_combinations;
         map (fun w => (w, 2%float)) weight_combinations]
  /\ accumulate (concat
        [map (fun w => (w, 1%float)) weight_combinations;
         map (fun w => (w, 2%float)) weight_combinations])
     = map (fun k => (k, values_of k (concat
              [map (fun w => (w, 1%float)) weight_combinations;
               map (fun w => (w, 2%float)) weight_combinations])))
           weight_combinations
  /\ Forall (fun item : float * float * list float => length (snd item) = 2%nat)
       (accumulate (concat
          [map (fun w => (w, 1%float)) weight_combinations;
           map (fun w => (w, 2%float)) weight_combinations]))
  /\ aggregate 0%float (concat
        [map (fun w => (w, 1%float)) weight_combinations;
         map (fun w => (w, 2%float)) weight_combinations])
     = fold_left (fun best k => select_step best (k, values_of k (concat
                    [map (fun w => (w, 1%float)) weight_combinations;
                     map (fun w => (w, 2%float)) weight_combinations])))
                 weight_combinations (neg_infinity, (0%float, 0%float)).
Proof.
  assert (Hnd : NoDup weight_combinations).
  { apply (bool_decide_unpack _). vm_compute. exact I. }
  assert (Hne : [map (fun w => (w, 1%float)) weight_combinations;
                 map (fun w => (w, 2%float)) weight_combinations] <> []) by discriminate.
  assert (Ht : Forall (fun track : list (@observation float) =>
                         map fst track = weight_combinations)
                 [map (fun w => (w, 1%float)) weight_combinations;
                  map (fun w => (w, 2%float)) weight_combinations]).
  { repeat constructor; vm_compute; reflexivity. }
  split; [exact Hnd|]. split; [exact Hne|]. split; [exact Ht|].
  exact (grid_order_is_iteration_order 0%float weight_combinations _ Hnd Hne Ht).
Defined.

(** ** NaN and the selection loop *)

Section NanFacts.
Local Open Scope float_scope.

Lemma add_nan_r (x : float) : x + nan = nan.
Proof.
  apply Prim2SF_inj. rewrite add_spec.
  change (Prim2SF nan) with S754_nan.
  unfold SF64add, SFadd. destruct (Prim2SF x) as [[]|[]| |]; reflexivity.
Qed.

Lemma add_nan_l (x : float) : nan + x = nan.
Proof.
  apply Prim2SF_inj. rewrite add_spec.
  change (Prim2SF nan) with S754_nan. reflexivity.
Qed.

Lemma div_nan_l (x : float) : nan / x = nan.
Proof.
  apply Prim2SF_inj. rewrite div_spec.
  change (Prim2SF nan) with S754_nan. reflexivity.
Qed.

Lemma ltb_nan_r (x : float) : (x <? nan) = false.
Proof.
  rewrite FloatAxioms.ltb_spec. change (Prim2SF nan) with S754_nan.
  unfold SFltb. destruct (Prim2SF x) as [[]|[]| |]; reflexivity.
Qed.

Lemma fold_add_from_nan (vs : list float) : fold_left PrimFloat.add vs nan = nan.
Proof.
  induction vs as [|v vs IH]; simpl; [reflexivity|].
  now rewrite add_nan_l.
Qed.

Lemma fold_add_nan (vs : list float) (z : float) :
  nan ∈ vs -> fold_left PrimFloat.add vs z = nan.
Proof.
  revert z. induction vs as [|v vs IH]; intros z Hin; simpl.
  - now apply not_elem_of_nil in Hin.
  - apply elem_of_cons in Hin as [<-|Hin].
    + rewrite add_nan_r. apply fold_add_from_nan.
    + now apply IH.
Qed.
End NanFacts.

(** X6.  One NaN among the values recorded for a weight pair makes the
    pair's mean NaN, and the selection loop then leaves the best pair as it
    was: such a pair is never selected. *)
Theorem nan_value_is_never_selected {W : Type} `{EqDecision W}
    (best : float * (W * W)) (weights : W * W) (sdr_values : list float) :
  nan ∈ sdr_values ->
  average sdr_values = nan /\ select_step best (weights, sdr_values) = best.
Proof.
  intros Hin.
  assert (Havg : average sdr_values = nan).
  { unfold average. rewrite (fold_add_nan _ _ Hin). apply div_nan_l. }
  split; [exact Havg|].
  destruct best as [best_sdr best_weights]. unfold select_step.
  now rewrite Havg, ltb_nan_r.
Qed.

Lemma nan_value_is_never_selected_witness :
  nan ∈ [7; nan; 9]%float
  /\ average [7; nan; 9]%float = nan
  /\ select_step (5, (1, 9))%float ((2, 8)%float, [7; nan; 9]%float) = (5, (1, 9))%float.
Proof.
  assert (Hin : nan ∈ [7; nan; 9]%float) by (apply list_elem_of_further; constructor).
  split; [exact Hin|].
  exact (nan_value_is_never_selected (5, (1, 9))%float (2, 8)%float _ Hin).
Defined.

Section SelectionInvariant.
Context {W : Type} `{EqDecision W}.
Implicit Types (d : @dict W) (k : W * W).
Local Open Scope float_scope.

Lemma select_best_invariant (zero : W) d :
  (forall k' vs', (k', vs') ∈ d ->
     (fst (select_best d (neg_infinity, (zero, zero))) <? average vs') = false)
  /\ (select_best d (neg_infinity, (zero, zero)) = (neg_infinity, (zero, zero))
      \/ exists vs,
           (snd (select_best d (neg_infinity, (zero, zero))), vs) ∈ d
           /\ fst (select_best d (neg_infinity, (zero, zero))) = average vs
           /\ (neg_infinity <? average vs) = true).
Proof.
  induction d as [|[kx vx] d IH] using rev_ind.
  - split; [|now left]. intros k' vs' Hin. now apply not_elem_of_nil in Hin.
  - rewrite select_best_snoc. destruct IH as [Hmax Hentry].
    destruct (select_best d (neg_infinity, (zero, zero))) as [best_sdr best_weights].
    simpl in Hmax, Hentry. simpl.
    destruct (best_sdr <? average vx) eqn:Hlt; simpl.
    + split.
      * intros k' vs' Hin. apply elem_of_app in Hin as [Hin|Hin].
        -- destruct (average vx <? average vs') eqn:Hlt'; [|reflexivity].
           rewrite <- (Hmax k' vs' Hin). symmetry.
           now apply (ltb_trans _ (average vx)).
        -- apply list_elem_of_singleton in Hin.
           apply (f_equal snd) in Hin. simpl in Hin. subst vs'. apply ltb_irrefl.
      * right. exists vx. split; [|split; [reflexivity|]].
        -- apply elem_of_app. right. constructor.
        -- destruct Hentry as [Hs|(vs & _ & Hb & Hnum)].
           ++ apply (f_equal fst) in Hs. simpl in Hs. now subst best_sdr.
           ++ subst best_sdr. now apply (ltb_trans _ (average vs)).
    + split.
      * intros k' vs' Hin. apply elem_of_app in Hin as [Hin|Hin].
        -- now apply (Hmax k').
        -- apply list_elem_of_singleton in Hin.
           apply (f_equal snd) in Hin. simpl in Hin. now subst vs'.
      * destruct Hentry as [Hs|(vs & Hin & Hb & Hnum)]; [now left|].
        right. exists vs. split; [|split; assumption].
        apply elem_of_app. now left.
Qed.

Lemma select_best_keeps_sentinel (best_weights : W * W) d :
  (forall k vs, (k, vs) ∈ d -> (neg_infinity <? average vs) = false) ->
  select_best d (neg_infinity, best_weights) = (neg_infinity, best_weights).
Proof.
  induction d as [|[k vs] d IH]; intros Hd; [reflexivity|].
  unfold select_best in *. simpl.
  rewrite (Hd k vs) by constructor.
  apply IH. intros k' vs' Hin. apply (Hd k'). now constructor.
Qed.
End SelectionInvariant.

(** X7.  For every collection of observations, numbers or not: no
    observed pair has a mean that exceeds the reported best value; the
    reported value is never NaN; and the result is either the initial
    [(-inf, (0, 0))] or an observed pair together with the mean of all the
    values recorded for it, which is above [-inf]. *)
Theorem aggregate_result_invariant {W : Type} `{EqDecision W}
    (zero : W) (all_sdr_values : list (@observation W)) :
  let best_sdr := fst (aggregate zero all_sdr_values) in
  let best_weights := snd (aggregate zero all_sdr_values) in
  (forall k, k ∈ map fst all_sdr_values ->
     (best_sdr <? average (values_of k all_sdr_values))%float = false)
  /\ (best_sdr =? best_sdr)%float = true
  /\ ((best_sdr = neg_infinity /\ best_weights = (zero, zero))
      \/ (best_weights ∈ map fst all_sdr_values
          /\ best_sdr = average (values_of best_weights all_sdr_values)
          /\ (neg_infinity <? best_sdr)%float = true)).
Proof.
  cbv zeta. unfold aggregate.
  destruct (select_best_invariant zero (accumulate all_sdr_values)) as [Hmax Hentry].
  split.
  { intros k Hk. apply (Hmax k). now apply accumulate_observed. }
  destruct Hentry as [Hs|(vs & Hin & Hb & Hnum)].
  - rewrite Hs. simpl. split; [reflexivity|]. now left.
  - split.
    + rewrite Hb. now apply (ltb_number neg_infinity).
    + right. apply accumulate_key_observed in Hin as [Hk Hvs].
      split; [exact Hk|]. split; [now rewrite Hb, Hvs|now rewrite Hb].
Qed.

(** X8.  When no pair's mean is above [-inf] (every pair holds a NaN, or
    sums to [-inf]), a non-empty collection is reported like an empty one:
    the best value [-inf] with the pair [(0, 0)]. *)
Theorem aggregate_without_number_keeps_sentinel {W : Type} `{EqDecision W}
    (zero : W) (all_sdr_values : list (@observation W)) :
  (forall k vs, (k, vs) ∈ accumulate all_sdr_values ->
     (neg_infinity <? average vs)%float = false) ->
  aggregate zero all_sdr_values = (neg_infinity, (zero, zero)).
Proof.
  intros Hmeans. unfold aggregate. now apply select_best_keeps_sentinel.
Qed.

Lemma aggregate_without_number_keeps_sentinel_witness :
  (forall k vs, (k, vs) ∈ accumulate nan_observation ->
     (neg_infinity <? average vs)%float = false)
  /\ aggregate 0%float nan_observation = (neg_infinity, (0, 0))%float.
Proof.
  assert (Hmeans : forall k vs, (k, vs) ∈ accumulate nan_observation ->
                     (neg_infinity <? average vs)%float = false).
  { intros k vs Hin. change (accumulate nan_observation) with [((0, 10)%float, [nan])] in Hin.
    apply list_elem_of_singleton in Hin. apply (f_equal snd) in Hin. simpl in Hin.
    subst vs. reflexivity. }
  split; [exact Hmeans|].
  exact (aggregate_without_number_keeps_sentinel 0%float nan_observation Hmeans).
Defined.

(** ** Gathering the tracks *)

Lemma gather_all_Ok {W : Type} (values : list (list (@observation W))) :
  gather (map Ok values) = Ok (concat values).
Proof.
  induction values as [|v values IH]; simpl; [reflexivity|]. now rewrite IH.
Qed.

Lemma gather_first_Raise {W : Type} (values : list (list (@observation W)))
    (e : exn) (later : list (result (list (@observation W)))) :
  gather (map Ok values ++ Raise e :: later) = Raise e.
Proof.
  induction values as [|v values IH]; simpl; [reflexivity|]. now rewrite IH.
Qed.

(** X9.  The search reports a result exactly when every track returned
    observations, and then it aggregates them in submission order; when a
    track raised, the search raises the error of the first such track in
    submission order, whatever the later tracks did, and reports nothing. *)
Theorem main_search_all_or_first_error {W : Type} `{EqDecision W} (zero : W)
    (futures : list (result (list (@observation W)))) :
  (exists values,
     futures = map Ok values
     /\ main_search zero futures = Ok (aggregate zero (concat values)))
  \/ (exists values e later,
        futures = map Ok values ++ Raise e :: later
        /\ main_search zero futures = Raise e).
Proof.
  induction futures as [|fut futures IH].
  - left. exists []. split; reflexivity.
  - destruct fut as [v|e].
    + destruct IH as [(values & -> & _)|(values & e & later & -> & _)].
      * left. exists (v :: values). split; [reflexivity|].
        unfold main_search.
        change (Ok v :: map Ok values) with (map Ok (v :: values)).
        now rewrite gather_all_Ok.
      * right. exists (v :: values), e, later. split; [reflexivity|].
        unfold main_search.
        change (Ok v :: map Ok values ++ Raise e :: later)
          with (map Ok (v :: values) ++ Raise e :: later).
        now rewrite gather_first_Raise.
    + right. exists [], e, futures. split; reflexivity.
Qed.

(** ** Shapes the metric rejects or stretches *)

Lemma broadcast_mismatch {A B C : Type} (f : A -> B -> result C) (xs : list A) (ys : list B) :
  length xs <> length ys -> length xs <> 1%nat -> length ys <> 1%nat ->
  broadcast f xs ys = Raise broadcast_error.
Proof.
  intros Hne Hx Hy. unfold broadcast.
  destruct (Nat.eqb_spec (length xs) (length ys)) as [Heq|_]; [contradiction|].
  destruct xs as [|x [|x' xs]], ys as [|y [|y' ys]]; simpl in *; congruence.
Qed.

Lemma broadcast_head_Raise {A B C : Type} (f : A -> B -> result C)
    (x : A) (xs : list A) (y : B) (ys : list B) (e : exn) :
  length xs = length ys -> f x y = Raise e ->
  broadcast f (x :: xs) (y :: ys) = Raise e.
Proof.
  intros Hlen Hf. unfold broadcast. simpl length.
  rewrite Hlen, Nat.eqb_refl. simpl. now rewrite Hf.
Qed.

(** X10.  [sdr] does not trim: on inputs that agree in batch and channel
    counts but differ in sample count (neither count being 1, which numpy
    would stretch), the subtraction raises the broadcasting error. *)
Theorem sdr_sample_mismatch_raises {F : Type} `{Arith F} (log10 : F -> F)
    (references estimates : array3 F) (B C T1 T2 : nat) :
  has_shape3 references B C T1 ->
  has_shape3 estimates B C T2 ->
  (0 < B)%nat -> (0 < C)%nat ->
  T1 <> T2 -> T1 <> 1%nat -> T2 <> 1%nat ->
  sdr log10 references estimates = Raise broadcast_error.
Proof.
  intros [Hlr Hsr] [Hle Hse] HB HC Hne H1 H2.
  destruct references as [|r refs]; [simpl in Hlr; lia|].
  destruct estimates as [|e ests]; [simpl in Hle; lia|].
  apply Forall_cons in Hsr as [[Hr Hrr] _]. apply Forall_cons in Hse as [[He Her] _].
  destruct r as [|row r]; [simpl in Hr; lia|].
  destruct e as [|row' e]; [simpl in He; lia|].
  apply Forall_cons in Hrr as [Hrow _]. apply Forall_cons in Her as [Hrow' _].
  unfold sdr, ew3. rewrite (broadcast_head_Raise _ _ _ _ _ broadcast_error); [reflexivity| |].
  - simpl in Hlr, Hle. lia.
  - unfold ew2. apply broadcast_head_Raise.
    + simpl in Hr, He. lia.
    + unfold ew1. apply broadcast_mismatch; lia.
Qed.

Lemma sdr_sample_mismatch_raises_witness :
  has_shape3 [[[1; 2; 3]]]%R 1 1 3
  /\ has_shape3 [[[1; 2]]]%R 1 1 2
  /\ sdr Rlog10 [[[1; 2; 3]]]%R [[[1; 2]]]%R = Raise broadcast_error.
Proof.
  assert (H1 : has_shape3 [[[1; 2; 3]]]%R 1 1 3)
    by (repeat (constructor || split); reflexivity).
  assert (H2 : has_shape3 [[[1; 2]]]%R 1 1 2)
    by (repeat (constructor || split); reflexivity).
  split; [exact H1|]. split; [exact H2|].
  apply (sdr_sample_mismatch_raises Rlog10 _ _ 1 1 3 2 H1 H2); lia.
Defined.

(** X11.  [get_sdr] trims samples, not channels: on signals whose channel
    counts differ, neither being 1, it raises the broadcasting error. *)
Theorem get_sdr_channel_mismatch_raises {F : Type} `{Arith F} (log10 : F -> F)
    (original_signal model_signal : array2 F) :
  length original_signal <> length model_signal ->
  length original_signal <> 1%nat ->
  length model_signal <> 1%nat ->
  get_sdr log10 original_signal model_signal = Raise broadcast_error.
Proof.
  intros Hne H1 H2. unfold get_sdr, sdr, ew3.
  rewrite (broadcast_head_Raise _ _ _ _ _ broadcast_error); [reflexivity|reflexivity|].
  unfold ew2. apply broadcast_mismatch; now rewrite !length_map.
Qed.

Lemma get_sdr_channel_mismatch_raises_witness :
  length [[1; 2]; [3; 4]]%R <> length [[1; 2]; [3; 4]; [5; 6]]%R
  /\ length [[1; 2]; [3; 4]]%R <> 1%nat
  /\ length [[1; 2]; [3; 4]; [5; 6]]%R <> 1%nat
  /\ get_sdr Rlog10 [[1; 2]; [3; 4]]%R [[1; 2]; [3; 4]; [5; 6]]%R = Raise broadcast_error.
Proof.
  assert (H0 : length [[1; 2]; [3; 4]]%R <> length [[1; 2]; [3; 4]; [5; 6]]%R)
    by (simpl; lia).
  assert (H1 : length [[1; 2]; [3; 4]]%R <> 1%nat) by (simpl; lia).
  assert (H2 : length [[1; 2]; [3; 4]; [5; 6]]%R <> 1%nat) by (simpl; lia).
  split; [exact H0|]. split; [exact H1|]. split; [exact H2|].
  exact (get_sdr_channel_mismatch_raises Rlog10 _ _ H0 H1 H2).
Defined.

(** ** A one-channel reference against several channels *)

Section MonoReference.
Context {F : Type} `{Arith F}.
Variable log10 : F -> F.
Local Open Scope arith_scope.

Lemma ew2_stretch_first (op : F -> F -> F) (r : list F) (m : array2 F) (C n : nat) :
  length r = n -> has_shape2 m C n -> (0 < C)%nat ->
  ew2 op [r] m = Ok (map (zip_with op r) m).
Proof.
  intros Hr [Hlen Hrows] HC.
  assert (Hpure : Forall (fun s => ew1 op r s = Ok (zip_with op r s)) m).
  { eapply Forall_impl; [exact Hrows|]. intros s Hs. apply ew1_same. congruence. }
  unfold ew2, broadcast.
  destruct m as [|s [|s' m]]; simpl in Hlen; [lia| |].
  - simpl. apply Forall_cons in Hpure as [Hs _]. now rewrite Hs.
  - cbn [length Nat.eqb]. now apply for_each_pure.
Qed.

Lemma nth_take {A : Type} (l : list A) (n t : nat) (d : A) :
  (t < n)%nat -> nth t (take n l) d = nth t l d.
Proof. intros Ht. now rewrite !nth_lookup, lookup_take_lt. Qed.

Lemma at2_stretch_first (op : F -> F -> F) (r : list F) (m : array2 F) (C n c t : nat) :
  length r = n -> has_shape2 m C n -> (c < C)%nat -> (t < n)%nat ->
  at2 (map (zip_with op r) m) c t = op (nth t r (of_Z 0)) (at2 m c t).
Proof.
  intros Hr [Hlen Hrows] Hc Ht.
  destruct (lookup_lt_is_Some_2 m c ltac:(lia)) as [s Es].
  rewrite Forall_forall in Hrows.
  pose proof (Hrows _ (list_elem_of_lookup_2 _ _ _ Es)) as Hs.
  destruct (lookup_lt_is_Some_2 r t ltac:(lia)) as [x Ex].
  destruct (lookup_lt_is_Some_2 s t ltac:(lia)) as [y Ey].
  rewrite (at2_lookup m c t s y Es Ey), (nth_lookup_Some _ _ _ _ Ex).
  apply (at2_lookup _ c t (zip_with op r s)).
  - now rewrite list_lookup_fmap, Es.
  - rewrite lookup_zip_with, Ex. simpl. now rewrite Ey.
Qed.

Lemma get_sdr_one_channel_reference (r : list F) (model_signal : array2 F)
    (C N1 N2 : nat) :
  length r = N1 -> has_shape2 model_signal C N2 -> (0 < C)%nat ->
  get_sdr log10 [r] model_signal
  = Ok [sdr_formula log10
          (sum_ct 1 (Nat.min N1 N2) (fun _ t => nth t r (of_Z 0) * nth t r (of_Z 0)))
          (sum_ct C (Nat.min N1 N2) (fun c t =>
             (nth t r (of_Z 0) - at2 model_signal c t)
             * (nth t r (of_Z 0) - at2 model_signal c t)))].
Proof.
  intros Hr Hm HC. unfold get_sdr.
  rewrite (shape1_rows model_signal C N2 HC Hm).
  change (shape1 [r]) with (length r). rewrite Hr.
  set (n := Nat.min N1 N2).
  pose proof (take_shape2 model_signal C N2 n Hm ltac:(lia)) as Hm'.
  assert (Hr' : length (take n r) = n) by (rewrite length_take; lia).
  set (D := map (zip_with f_sub (take n r)) (map (take n) model_signal)).
  assert (E3 : ew3 f_sub [[take n r]] [map (take n) model_signal] = Ok [D]).
  { unfold ew3, broadcast. cbn [length Nat.eqb zip zip_with for_each fst snd].
    now rewrite (ew2_stretch_first f_sub _ _ C n Hr' Hm' HC). }
  assert (Hd : has_shape2 D C n).
  { destruct Hm' as [Hl Hrows]. split; [unfold D; now rewrite length_map|].
    apply Forall_fmap. eapply Forall_impl; [exact Hrows|].
    intros s Hs. unfold compose. rewrite length_zip_with, Hr', Hs. lia. }
  assert (Enum : energy [take n r]
                 = sum_ct 1 n (fun _ t => nth t r (of_Z 0) * nth t r (of_Z 0))).
  { unfold energy.
    rewrite (sum_axes_index (fun x => x * x) [take n r] 1 n)
      by (split; [reflexivity|repeat constructor; exact Hr']).
    apply sum_ct_ext. intros c t Hc Ht.
    assert (c = 0%nat) as -> by lia. unfold at2. simpl. now rewrite nth_take. }
  assert (Eden : energy D
                 = sum_ct C n (fun c t =>
                     (nth t r (of_Z 0) - at2 model_signal c t)
                     * (nth t r (of_Z 0) - at2 model_signal c t))).
  { unfold energy. rewrite (sum_axes_index (fun x => x * x) D C n Hd).
    apply sum_ct_ext. intros c t Hc Ht. unfold D.
    rewrite (at2_stretch_first f_sub _ _ C n c t Hr' Hm' Hc Ht).
    now rewrite nth_take, at2_take. }
  change (map (take n) [r]) with [take n r].
  unfold sdr. rewrite E3. cbn [mbind result_bind].
  rewrite !sum_axes12_square. cbn [map].
  rewrite ew1_same by reflexivity. cbn [zip_with mbind result_bind map].
  rewrite Enum, Eden. reflexivity.
Qed.
End MonoReference.

(** X14.  Against a one-channel reference, [get_sdr] stretches the
    reference over the [C] channels of the estimate for the error only: the
    error energy sums over all [C] channels, while the reference energy
    counts the one channel once. *)
Theorem get_sdr_mono_reference {F : Type} `{Arith F} (log10 : F -> F)
    (r : list F) (model_signal : array2 F) (C N1 N2 : nat) :
  length r = N1 -> has_shape2 model_signal C N2 -> (0 < C)%nat ->
  get_sdr log10 [r] model_signal
  = Ok [f_mul (of_Z 10)
          (log10 (f_div
             (f_add (sum_ct 1 (Nat.min N1 N2) (fun _ t =>
                       f_mul (nth t r (of_Z 0)) (nth t r (of_Z 0))))
                    (lit 1 10000000))
             (f_add (sum_ct C (Nat.min N1 N2) (fun c t =>
                       f_mul (f_sub (nth t r (of_Z 0)) (at2 model_signal c t))
                             (f_sub (nth t r (of_Z 0)) (at2 model_signal c t))))
                    (lit 1 10000000))))].
Proof. apply get_sdr_one_channel_reference. Qed.

Lemma get_sdr_mono_reference_witness :
  length [1; 2]%R = 2%nat
  /\ has_shape2 [[1; 2]; [1; 0]]%R 2 2
  /\ (0 < 2)%nat
  /\ get_sdr Rlog10 [[1; 2]]%R [[1; 2]; [1; 0]]%R
     = Ok [f_mul (of_Z 10)
             (Rlog10 (f_div
                (f_add (sum_ct 1 (Nat.min 2 2) (fun _ t =>
                          f_mul (nth t [1; 2]%R (of_Z 0)) (nth t [1; 2]%R (of_Z 0))))
                       (lit 1 10000000))
                (f_add (sum_ct 2 (Nat.min 2 2) (fun c t =>
                          f_mul (f_sub (nth t [1; 2]%R (of_Z 0)) (at2 [[1; 2]; [1; 0]]%R c t))
                                (f_sub (nth t [1; 2]%R (of_Z 0)) (at2 [[1; 2]; [1; 0]]%R c t))))
                       (lit 1 10000000))))].
Proof.
  assert (H1 : length [1; 2]%R = 2%nat) by reflexivity.
  assert (H2 : has_shape2 [[1; 2]; [1; 0]]%R 2 2)
    by (split; [reflexivity|repeat constructor]).
  assert (H3 : (0 < 2)%nat) by lia.
  split; [exact H1|]. split; [exact H2|]. split; [exact H3|].
  exact (get_sdr_mono_reference Rlog10 _ _ 2 2 2 H1 H2 H3).
Defined.

(** ** More on the track evaluator *)

Lemma for_each_ext {A B : Type} (f g : A -> result B) (l : list A) :
  (forall x, f x = g x) -> for_each f l = for_each g l.
Proof.
  intros Hfg. induction l as [|x l IH]; simpl; [reflexivity|].
  now rewrite Hfg, IH.
Qed.

Lemma remove_dups_same_elements (l k : list Z) :
  (forall x, x ∈ l <-> x ∈ k) -> remove_dups l ≡ₚ remove_dups k.
Proof.
  intros Hlk. apply NoDup_Permutation; try apply NoDup_remove_dups.
  intros x. rewrite !elem_of_remove_dups. apply Hlk.
Qed.

Lemma sorted_set_same_elements (l k : list Z) :
  (forall x, x ∈ l <-> x ∈ k) -> sorted_set l = sorted_set k.
Proof.
  intros Hlk. unfold sorted_set.
  apply (StronglySorted_unique Z.le); try apply StronglySorted_merge_sort; try apply _.
  rewrite !merge_sort_Permutation. now apply remove_dups_same_elements.
Qed.

(** X15.  With fewer than two model files the blend cannot be formed: once
    the mix and the rate check have passed, the first weight pair raises
    [IndexError] on [model_signals], and so does the track. *)
Theorem process_track_needs_two_models {F : Type} `{Arith F} (log10 : F -> F)
    {TF SOS : Type} (butter : Z -> F -> btype -> result TF)
    (tf2sos : TF -> result SOS) (sosfiltfilt : SOS -> array2 F -> result (array2 F))
    (original_vocals original_other mix : array2 F) (sr1 sr2 : Z)
    (model_files : list (array2 F * Z)) (weight_combinations : list (F * F)) :
  ew2 f_add (transpose original_vocals) (transpose original_other) = Ok mix ->
  (length (remove_dups (sr1 :: sr2 :: map snd model_files)) <= 1)%nat ->
  (length model_files < 2)%nat ->
  weight_combinations <> [] ->
  process_track log10 butter tf2sos sosfiltfilt
    (original_vocals, sr1) (original_other, sr2) model_files weight_combinations
  = Raise (IndexError "list index out of range").
Proof.
  intros Hmix Hrates Hlen Hne.
  unfold process_track. rewrite Hmix. cbn [mbind result_bind app].
  rewrite decide_False by lia.
  destruct weight_combinations as [|[w1 w2] ws]; [congruence|].
  cbn [for_each].
  assert (E : evaluate_pair log10 butter tf2sos sosfiltfilt original_vocals sr1
                (map (fun mf => transpose (fst mf)) model_files) (w1, w2)
              = Raise (IndexError "list index out of range")).
  { destruct model_files as [|mf [|mf' rest]]; simpl in Hlen; try lia; reflexivity. }
  now rewrite E.
Qed.

Lemma process_track_needs_two_models_witness :
  ew2 f_add (transpose (stereo_frames 2)) (transpose (stereo_frames 2))
  = Ok [[0; 0]; [0; 0]]%float
  /\ (length (remove_dups (44100 :: 44100 :: map snd [(stereo_frames 2, 44100)]))%Z <= 1)%nat
  /\ (length [(stereo_frames 2, 44100%Z)] < 2)%nat
  /\ weight_combinations <> []
  /\ process_track (fun x => x) (fun _ _ _ => Ok tt) (fun _ => Ok tt) (fun _ a => Ok a)
       (stereo_frames 2, 44100%Z) (stereo_frames 2, 44100%Z)
       [(stereo_frames 2, 44100%Z)] weight_combinations
     = Raise (IndexError "list index out of range").
Proof.
  assert (Hmix : ew2 f_add (transpose (stereo_frames 2)) (transpose (stereo_frames 2))
                 = Ok [[0; 0]; [0; 0]]%float) by reflexivity.
  assert (Hrates : (length (remove_dups
                      (44100 :: 44100 :: map snd [(stereo_frames 2, 44100)]))%Z <= 1)%nat)
    by (vm_compute; lia).
  assert (Hlen : (length [(stereo_frames 2, 44100%Z)] < 2)%nat) by (simpl; lia).
  assert (Hne : weight_combinations <> [])
    by (rewrite weight_combinations_value; discriminate).
  split; [exact Hmix|]. split; [exact Hrates|]. split; [exact Hlen|]. split; [exact Hne|].
  exact (process_track_needs_two_models (fun x => x) (fun _ _ _ => Ok tt) (fun _ => Ok tt)
           (fun _ a => Ok a) (stereo_frames 2) (stereo_frames 2) _ 44100%Z 44100%Z
           [(stereo_frames 2, 44100%Z)] weight_combinations Hmix Hrates Hlen Hne).
Defined.

(** X16.  A track that returns observations returns one per weight pair,
    in the order of [weight_combinations], each carrying its own pair. *)
Theorem process_track_keeps_grid_order {F : Type} `{Arith F} (log10 : F -> F)
    {TF SOS : Type} (butter : Z -> F -> btype -> result TF)
    (tf2sos : TF -> result SOS) (sosfiltfilt : SOS -> array2 F -> result (array2 F))
    (vocals other : array2 F * Z) (model_files : list (array2 F * Z))
    (weight_combinations : list (F * F)) (observations : list (F * F * F)) :
  process_track log10 butter tf2sos sosfiltfilt vocals other model_files weight_combinations
  = Ok observations ->
  map fst observations = weight_combinations.
Proof.
  destruct vocals as [original_vocals sr1], other as [original_other sr2].
  unfold process_track. intros E.
  destruct (ew2 f_add _ _) as [mix|]; [|discriminate].
  cbn [mbind result_bind] in E.
  destruct (decide _) in E; [discriminate|].
  apply for_each_Forall2 in E.
  induction E as [|w o ws os Hwo _ IH]; [reflexivity|].
  cbn [map]. f_equal; [|exact IH].
  apply evaluate_pair_Ok in Hwo
    as (A & B & candidate & sdr_values & s & _ & _ & _ & _ & _ & ->).
  now destruct w.
Qed.

Lemma process_track_keeps_grid_order_witness :
  process_track (fun x => x) (fun _ _ _ => Ok tt) (fun _ => Ok tt) (fun _ a => Ok a)
    (stereo_frames 2, 44100%Z) (stereo_frames 2, 44100%Z)
    mismatched_models weight_combinations
  = Ok (map (fun w => (w, 10%float)) weight_combinations)
  /\ map fst (map (fun w : float * float => (w, 10%float)) weight_combinations)
     = weight_combinations.
Proof.
  assert (E : process_track (fun x => x) (fun _ _ _ => Ok tt) (fun _ => Ok tt)
                (fun _ a => Ok a)
                (stereo_frames 2, 44100%Z) (stereo_frames 2, 44100%Z)
                mismatched_models weight_combinations
              = Ok (map (fun w => (w, 10%float)) weight_combinations))
    by (vm_compute; reflexivity).
  split; [exact E|].
  exact (process_track_keeps_grid_order _ _ _ _ _ _ _ _ _ E).
Defined.

(** X17.  The samples of [original_other.wav] never reach the result: two
    files with which the reference mix can be formed, at the same rate,
    give the same observations or the same error. *)
Theorem process_track_ignores_other_samples {F : Type} `{Arith F} (log10 : F -> F)
    {TF SOS : Type} (butter : Z -> F -> btype -> result TF)
    (tf2sos : TF -> result SOS) (sosfiltfilt : SOS -> array2 F -> result (array2 F))
    (original_vocals original_other original_other' mix mix' : array2 F) (sr1 sr2 : Z)
    (model_files : list (array2 F * Z)) (weight_combinations : list (F * F)) :
  ew2 f_add (transpose original_vocals) (transpose original_other) = Ok mix ->
  ew2 f_add (transpose original_vocals) (transpose original_other') = Ok mix' ->
  process_track log10 butter tf2sos sosfiltfilt
    (original_vocals, sr1) (original_other, sr2) model_files weight_combinations
  = process_track log10 butter tf2sos sosfiltfilt
      (original_vocals, sr1) (original_other', sr2) model_files weight_combinations.
Proof.
  intros E E'. unfold process_track. now rewrite E, E'.
Qed.

Lemma process_track_ignores_other_samples_witness :
  ew2 f_add (transpose (stereo_frames 2)) (transpose (stereo_frames 2))
  = Ok [[0; 0]; [0; 0]]%float
  /\ ew2 f_add (transpose (stereo_frames 2)) (transpose [[1; 2]; [3; 4]]%float)
     = Ok [[1; 3]; [2; 4]]%float
  /\ process_track (fun x => x) (fun _ _ _ => Ok tt) (fun _ => Ok tt) (fun _ a => Ok a)
       (stereo_frames 2, 44100%Z) (stereo_frames 2, 44100%Z)
       mismatched_models weight_combinations
     = process_track (fun x => x) (fun _ _ _ => Ok tt) (fun _ => Ok tt) (fun _ a => Ok a)
         (stereo_frames 2, 44100%Z) ([[1; 2]; [3; 4]]%float, 44100%Z)
         mismatched_models weight_combinations.
Proof.
  assert (E : ew2 f_add (transpose (stereo_frames 2)) (transpose (stereo_frames 2))
              = Ok [[0; 0]; [0; 0]]%float) by reflexivity.
  assert (E' : ew2 f_add (transpose (stereo_frames 2)) (transpose [[1; 2]; [3; 4]]%float)
               = Ok [[1; 3]; [2; 4]]%float) by reflexivity.
  split; [exact E|]. split; [exact E'|].
  exact (process_track_ignores_other_samples (fun x => x) (fun _ _ _ => Ok tt)
           (fun _ => Ok tt) (fun _ a => Ok a) _ _ _ _ _ 44100%Z 44100%Z
           mismatched_models weight_combinations E E').
Defined.

(** X18.  Only the first two model files are blended.  Further model
    files are read and their sample rates checked, but when their rates are
    among those of the first four files the track's result is the one
    without them. *)
Theorem process_track_blends_first_two_models {F : Type} `{Arith F} (log10 : F -> F)
    {TF SOS : Type} (butter : Z -> F -> btype -> result TF)
    (tf2sos : TF -> result SOS) (sosfiltfilt : SOS -> array2 F -> result (array2 F))
    (original_vocals original_other : array2 F) (sr1 sr2 : Z)
    (m1 m2 : array2 F * Z) (further : list (array2 F * Z))
    (weight_combinations : list (F * F)) :
  Forall (fun mf => snd mf ∈ [sr1; sr2; snd m1; snd m2]) further ->
  process_track log10 butter tf2sos sosfiltfilt
    (original_vocals, sr1) (original_other, sr2) (m1 :: m2 :: further) weight_combinations
  = process_track log10 butter tf2sos sosfiltfilt
      (original_vocals, sr1) (original_other, sr2) [m1; m2] weight_combinations.
Proof.
  intros Hrates. unfold process_track.
  destruct (ew2 f_add _ _) as [mix|]; [|reflexivity].
  cbn [mbind result_bind app map].
  assert (Hel : forall x,
    x ∈ sr1 :: sr2 :: snd m1 :: snd m2 :: map snd further
    <-> x ∈ [sr1; sr2; snd m1; snd m2]).
  { intros x. rewrite !elem_of_cons. split.
    - intros [?|[?|[?|[?|Hin]]]]; try tauto.
      apply list_elem_of_fmap in Hin as (mf & -> & Hmf).
      rewrite Forall_forall in Hrates. apply Hrates in Hmf.
      rewrite !elem_of_cons in Hmf. tauto.
    - intros [?|[?|[?|[?|Hin]]]]; try tauto.
      now apply not_elem_of_nil in Hin. }
  rewrite (Permutation_length (remove_dups_same_elements _ _ Hel)).
  unfold sample_rate_message. rewrite (sorted_set_same_elements _ _ Hel).
  destruct (decide _); [reflexivity|].
  apply for_each_ext. intros [w1 w2]. reflexivity.
Qed.

Lemma process_track_blends_first_two_models_witness :
  Forall (fun mf : array2 float * Z => snd mf ∈ [44100; 44100; 44100; 44100]%Z)
    [([[1; 2]; [3; 4]]%float, 44100%Z)]
  /\ process_track (fun x => x) (fun _ _ _ => Ok tt) (fun _ => Ok tt) (fun _ a => Ok a)
       (stereo_frames 2, 44100%Z) (stereo_frames 2, 44100%Z)
       ((stereo_frames 2, 44100%Z) :: (stereo_frames 2, 44100%Z)
          :: [([[1; 2]; [3; 4]]%float, 44100%Z)])
       weight_combinations
     = process_track (fun x => x) (fun _ _ _ => Ok tt) (fun _ => Ok tt) (fun _ a => Ok a)
         (stereo_frames 2, 44100%Z) (stereo_frames 2, 44100%Z)
         [(stereo_frames 2, 44100%Z); (stereo_frames 2, 44100%Z)]
         weight_combinations.
Proof.
  assert (Hr : Forall (fun mf : array2 float * Z => snd mf ∈ [44100; 44100; 44100; 44100]%Z)
                 [([[1; 2]; [3; 4]]%float, 44100%Z)])
    by (repeat constructor).
  split; [exact Hr|].
  exact (process_track_blends_first_two_models (fun x => x) (fun _ _ _ => Ok tt)
           (fun _ => Ok tt) (fun _ a => Ok a) (stereo_frames 2) (stereo_frames 2)
           44100%Z 44100%Z (stereo_frames 2, 44100%Z) (stereo_frames 2, 44100%Z)
           [([[1; 2]; [3; 4]]%float, 44100%Z)] weight_combinations Hr).
Defined.

(** ** The filter design at low sample rates *)

(** X19.  [lr_filter] hands the Butterworth design the cutoff divided by
    half the sample rate.  In real arithmetic, when the design rejects a
    normalised cutoff of 1 or more, as scipy's does, a sample rate of at
    most twice the cutoff makes [lr_filter] raise the design's error: at
    the 10000 Hz of [process_track], every rate up to 20000 Hz. *)
Theorem lr_filter_rejects_low_sample_rate {TF SOS : Type}
    (butter : Z -> R -> btype -> result TF) (tf2sos : TF -> result SOS)
    (sosfiltfilt : SOS -> array2 R -> result (array2 R)) (e : exn)
    (audio : array2 R) (cutoff : Z) (filter_type : btype) (order sr : Z) :
  (forall N Wn bt, (1 <= Wn)%R -> butter N Wn bt = Raise e) ->
  (0 < sr)%Z ->
  (sr <= 2 * cutoff)%Z ->
  lr_filter butter tf2sos sosfiltfilt audio cutoff filter_type order sr = Raise e.
Proof.
  intros Hbutter Hsr Hle. unfold lr_filter.
  rewrite decide_False by lia.
  rewrite Hbutter; [reflexivity|].
  apply IZR_lt in Hsr. apply IZR_le in Hle. rewrite mult_IZR in Hle.
  unfold lit. simpl.
  apply (Rmult_le_reg_r (1 / 2 * IZR sr)); [lra|].
  unfold Rdiv at 2. rewrite Rmult_assoc, Rinv_l by lra. lra.
Qed.

Lemma lr_filter_rejects_low_sample_rate_witness :
  (forall (N : Z) (Wn : R) (bt : btype), (1 <= Wn)%R ->
     (if Rle_dec 1 Wn then Raise (ValueError "Digital filter critical frequencies must be 0 < Wn < 1")
      else Ok tt) = Raise (ValueError "Digital filter critical frequencies must be 0 < Wn < 1"))
  /\ (0 < 16000)%Z
  /\ (16000 <= 2 * 10000)%Z
  /\ lr_filter
       (fun (_ : Z) (Wn : R) (_ : btype) =>
          if Rle_dec 1 Wn
          then Raise (ValueError "Digital filter critical frequencies must be 0 < Wn < 1")
          else Ok tt)
       (fun _ : unit => Ok tt) (fun (_ : unit) (a : array2 R) => Ok a)
       [[1; 2]]%R 10000%Z lowpass default_order 16000%Z
     = Raise (ValueError "Digital filter critical frequencies must be 0 < Wn < 1").
Proof.
  assert (Hb : forall (N : Z) (Wn : R) (bt : btype), (1 <= Wn)%R ->
     (if Rle_dec 1 Wn then Raise (ValueError "Digital filter critical frequencies must be 0 < Wn < 1")
      else Ok tt) = Raise (ValueError "Digital filter critical frequencies must be 0 < Wn < 1")).
  { intros N Wn bt HWn. destruct (Rle_dec 1 Wn); [reflexivity|contradiction]. }
  assert (H1 : (0 < 16000)%Z) by lia.
  assert (H2 : (16000 <= 2 * 10000)%Z) by lia.
  split; [exact Hb|]. split; [exact H1|]. split; [exact H2|].
  exact (lr_filter_rejects_low_sample_rate
           (fun (_ : Z) (Wn : R) (_ : btype) =>
              if Rle_dec 1 Wn
              then Raise (ValueError "Digital filter critical frequencies must be 0 < Wn < 1")
              else Ok tt)
           (fun _ : unit => Ok tt) (fun (_ : unit) (a : array2 R) => Ok a)
           _ [[1; 2]]%R 10000%Z lowpass default_order 16000%Z Hb H1 H2).
Defined.
